(** * The node lifecycle handlers of [maasserver/api.py]

    A shallow embedding of the piston handlers that drive the node
    lifecycle ([NodeHandler], [AnonNodesHandler], [NodesHandler]) and the
    properties the specification states about them.

    Python objects become records, the database becomes an explicit value
    of type [DB] threaded through every handler, and a raised exception
    becomes the [Raise] constructor of [outcome].  A handler is a function
    from a request and a database to an outcome and the database it
    leaves behind. *)

From stdpp Require Import base option list strings gmap.
From Stdlib Require Import ZArith Lia Ascii.

Local Open Scope Z_scope.
Local Open Scope string_scope.

(** ** Data model *)

(** The members of [maasserver.enum.NODE_STATUS] that the data model of the
    specification lists. *)
Inductive NODE_STATUS : Set :=
  | DECLARED
  | COMMISSIONING
  | FAILED_TESTS
  | READY
  | ALLOCATED
  | RESERVED
  | RETIRED.

#[global] Instance NODE_STATUS_eq_dec : EqDecision NODE_STATUS.
Proof. solve_decision. Defined.

(** [maasserver.enum.NODE_PERMISSION]. *)
Inductive NODE_PERMISSION : Set := VIEW | EDIT | ADMIN.

Record User : Set := mkUser {
  username : string;
  is_superuser : bool
}.

#[global] Instance User_eq_dec : EqDecision User.
Proof. solve_decision. Defined.

(** A row of the [Node] table.  [macaddress_set] is the reverse side of the
    foreign key of [MACAddress]: the addresses attached to the node, in
    creation order.  [updated] is a time stamp in microseconds. *)
Record Node : Set := mkNode {
  system_id : string;
  hostname : string;
  status : NODE_STATUS;
  owner : option User;
  netboot : bool;
  updated : Z;
  macaddress_set : list string
}.

#[global] Instance Node_eq_dec : EqDecision Node.
Proof. solve_decision. Defined.

Definition with_status (s : NODE_STATUS) (n : Node) : Node :=
  mkNode (system_id n) (hostname n) s (owner n) (netboot n) (updated n)
         (macaddress_set n).

Definition with_owner (o : option User) (n : Node) : Node :=
  mkNode (system_id n) (hostname n) (status n) o (netboot n) (updated n)
         (macaddress_set n).

(** A [piston.models.Token]. *)
Record Token : Set := mkToken { token_key : string }.

(** The exceptions the handlers raise, each with its message. *)
Inductive api_error : Set :=
  | NodeStateViolation (msg : string)
  | InvalidTransition (current requested : NODE_STATUS)
  | MAASAPIBadRequest (msg : string)
  | NodesNotAvailable (msg : string)
  | Unauthorized (msg : string)
  | PermissionDenied (msg : string)
  | ValidationError (msg : string)
  | TypeError
  | UnicodeDecodeError
  | NotFound.

(** What a call does: it returns a value or raises. *)
Inductive outcome (A : Type) : Type :=
  | Return (a : A)
  | Raise (e : api_error).
Arguments Return {A} a.
Arguments Raise {A} e.

(** A request to the power-control collaborator. *)
Inductive power_request : Set :=
  | requestStart (sid : string) (user_data : option string)
  | requestStop (sid : string).

(** The shared store.  [nodes] is the [Node] table in primary-key order;
    [saves] records the [system_id] of every row written through
    [Node.save()], most recent first, so that a bulk update, which goes
    around [save()], can be told apart from a per-row write; [power] is the
    queue of requests handed to the power collaborator, most recent
    first. *)
Record DB : Set := mkDB {
  nodes : list Node;
  saves : list string;
  power : list power_request
}.

(** [django.http.QueryDict]: each key holds the list of the values
    submitted for it. *)
Abbreviation QueryDict := (gmap string (list string)).

(** [QueryDict.get(key, None)]: the last value submitted for [key]. *)
Definition qd_get (d : QueryDict) (key : string) : option string :=
  match d !! key with
  | Some vs => last vs
  | None => None
  end.

(** [QueryDict.getlist(key)]. *)
Definition qd_getlist (d : QueryDict) (key : string) : list string :=
  default [] (d !! key).

Record HttpRequest : Type := mkRequest {
  user : User;
  GET : QueryDict;
  POST : QueryDict;
  data : QueryDict;
  HTTP_AUTHORIZATION : option string
}.

(** ** Storage primitives *)

(** The row with a given [system_id], if any. *)
Definition get_node (db : DB) (sid : string) : option Node :=
  List.find (fun n => bool_decide (system_id n = sid)) (nodes db).

Definition replace_row (n : Node) (rows : list Node) : list Node :=
  map (fun m => if bool_decide (system_id m = system_id n) then n else m) rows.

(** [Node.save()] on an existing row: the row is rewritten and the write
    is recorded.  The time stamp is written as the caller holds it: a
    refresh of [updated] by the model class, which [api.py] does not
    show, is not modelled. *)
Definition save (n : Node) (db : DB) : DB :=
  mkDB (replace_row n (nodes db)) (system_id n :: saves db) (power db).

(** [Node.save()] on a row that is not in the table yet. *)
Definition insert_node (n : Node) (db : DB) : DB :=
  mkDB (nodes db ++ [n]) (system_id n :: saves db) (power db).

(** [QuerySet.update]: one bulk statement over the rows a query selects.
    No [save()] runs. *)
Definition QuerySet_update (query : Node -> bool) (f : Node -> Node)
    (db : DB) : DB :=
  mkDB (map (fun n => if query n then f n else n) (nodes db))
       (saves db) (power db).

(** A Python [set] of strings, kept as a list without duplicates. *)
Definition set_of (l : list string) : list string := remove_dups l.

(** [', '.join(...)] and the like. *)
Definition join (sep : string) (l : list string) : string :=
  String.concat sep l.

(** The invariant of the data model on one row and on the table. *)
Definition node_inv (n : Node) : Prop :=
  owner n <> None <-> (status n = ALLOCATED \/ status n = RESERVED).

Definition db_inv (db : DB) : Prop := Forall node_inv (nodes db).

(** [system_id] is unique in the table. *)
Definition unique_ids (db : DB) : Prop := NoDup (map system_id (nodes db)).

(** Both can be checked on a given table. *)
#[global] Instance node_inv_dec (n : Node) : Decision (node_inv n).
Proof. unfold node_inv. apply _. Defined.

#[global] Instance db_inv_dec (db : DB) : Decision (db_inv db).
Proof. unfold db_inv. apply _. Defined.

#[global] Instance unique_ids_dec (db : DB) : Decision (unique_ids db).
Proof. unfold unique_ids. apply _. Defined.

(** ** The handlers *)

Section Handlers.

(** The collaborators the handlers consume. *)

(** Authorization: [user.has_perm(perm, node)]. *)
Variable has_perm : User -> NODE_PERMISSION -> Node -> bool.

(** [Node.display_status()]. *)
Variable display_status : Node -> string.

(** [settings.COMMISSIONING_TIMEOUT], in minutes. *)
Variable COMMISSIONING_TIMEOUT : Z.

(** [Token.objects.get(key=...)]; [None] where it raises
    [Token.DoesNotExist]. *)
Variable Token_objects_get : string -> option Token.

(** [base64.b64decode]; [None] where it raises [TypeError]. *)
Variable b64decode : string -> option string.

(** The node creation form: the validation collaborator.  On valid input
    it yields the attributes of the new row, on invalid input the form
    errors. *)
Variable node_create_form : User -> QueryDict -> string + Node.

(** *** Helpers of [api.py] *)

(** [get_mandatory_param(data, key)], without a validator. *)
Definition get_mandatory_param (d : QueryDict) (key : string)
    : outcome string :=
  match qd_get d key with
  | None => Raise (ValidationError ("No provided " +:+ key +:+ "!"))
  | Some value => Return value
  end.

(** [s.split(sep, 1)] when it yields two pieces: the text before the first
    [sep] and the text after it; [None] when [sep] does not occur. *)
Fixpoint split_once (sep : ascii) (s : string) : option (string * string) :=
  match s with
  | EmptyString => None
  | String c s' =>
      if bool_decide (c = sep) then Some (EmptyString, s')
      else match split_once sep s' with
           | Some (before, after) => Some (String c before, after)
           | None => None
           end
  end.

(** [s.lstrip(c)], [s.rstrip(c)] and [s.strip(c)] for a single character. *)
Fixpoint lstrip (c : ascii) (s : string) : string :=
  match s with
  | EmptyString => EmptyString
  | String a s' => if bool_decide (a = c) then lstrip c s' else s
  end.

Definition rstrip (c : ascii) (s : string) : string :=
  String.rev (lstrip c (String.rev s)).

Definition strip (c : ascii) (s : string) : string := rstrip c (lstrip c s).

(** A byte string that the [ascii] codec decodes: no byte above 127. *)
Fixpoint is_ascii (s : string) : bool :=
  match s with
  | EmptyString => true
  | String c s' => N.ltb (N_of_ascii c) 128 && is_ascii s'
  end.

(** The loop of [extract_oauth_key_from_auth_header] over the entries.
    The module is compiled with [unicode_literals], so the separator of
    [entry.split('=', 1)] is a unicode string while [entry], a piece of the
    header the server hands over, is a byte string: Python decodes [entry]
    with the [ascii] codec before it splits, and raises
    [UnicodeDecodeError] on a byte above 127.  Entries after the one that
    is returned are never looked at. *)
Fixpoint first_oauth_token (entries : list string)
    : outcome (option string) :=
  match entries with
  | [] => Return None
  | entry :: rest =>
      if is_ascii entry then
        match split_once "="%char entry with
        | Some (key, value) =>
            if bool_decide (key = "oauth_token")
            then Return (Some (strip "034"%char (rstrip ","%char value)))
            else first_oauth_token rest
        | None => first_oauth_token rest
        end
      else Raise UnicodeDecodeError
  end.

(** [extract_oauth_key_from_auth_header(auth_data)]; [auth_data.split()]
    cuts the byte string at ASCII white space. *)
Definition extract_oauth_key_from_auth_header (auth_data : string)
    : outcome (option string) :=
  first_oauth_token (String.words auth_data).

(** [extract_oauth_key(request)]. *)
Definition extract_oauth_key (request : HttpRequest) : outcome string :=
  match HTTP_AUTHORIZATION request with
  | None => Raise (Unauthorized "No authorization header received.")
  | Some auth_header =>
      match extract_oauth_key_from_auth_header auth_header with
      | Raise e => Raise e
      | Return None =>
          Raise (Unauthorized "Did not find request's oauth token.")
      | Return (Some key) => Return key
      end
  end.

(** [get_oauth_token(request)]. *)
Definition get_oauth_token (request : HttpRequest) : outcome Token :=
  match extract_oauth_key request with
  | Raise e => Raise e
  | Return key =>
      match Token_objects_get key with
      | None => Raise (Unauthorized "Unknown OAuth token.")
      | Some token => Return token
      end
  end.

(** [extract_constraints(request_params)]. *)
Definition extract_constraints (request_params : QueryDict)
    : gmap string string :=
  match qd_get request_params "name" with
  | None => ∅
  | Some name => {[ "name" := name ]}
  end.

(** *** Methods of the models, which [api.py] calls *)

(** Modelled from the spec: [Node.objects.get_node_or_404] of
    [maasserver.models] is missing.  Storage [get(system_id)], then the
    authorization collaborator: an unknown id is [NotFound], a missing
    capability is [PermissionDenied]. *)
Definition get_node_or_404 (db : DB) (sid : string) (u : User)
    (perm : NODE_PERMISSION) : outcome Node :=
  match get_node db sid with
  | None => Raise NotFound
  | Some node =>
      if has_perm u perm node then Return node
      else Raise (PermissionDenied "")
  end.

(** Modelled from the spec: [Node.objects.get_nodes] of
    [maasserver.models] is missing.  The rows on which the
    authorization collaborator grants [perm] to the user, restricted to
    [ids] when they are given. *)
Definition get_nodes (db : DB) (u : User) (perm : NODE_PERMISSION)
    (ids : option (list string)) : list Node :=
  List.filter
    (fun n => has_perm u perm n &&
              match ids with
              | None => true
              | Some l => bool_decide (system_id n ∈ l)
              end)
    (nodes db).

(** Modelled from the spec: [Node.release] of [maasserver.models] is
    missing.  It clears the owner and sets Ready. *)
Definition Node_release (node : Node) (db : DB) : Node * DB :=
  let node' := with_owner None (with_status READY node) in
  (node', save node' db).

(** Modelled from the spec: [Node.acquire] of [maasserver.models] is
    missing.  It sets [owner = requester] and [status = Allocated]; the
    record of the specification has no field for the token. *)
Definition Node_acquire (node : Node) (u : User) (token : Token)
    (db : DB) : Node * DB :=
  let node' := with_owner (Some u) (with_status ALLOCATED node) in
  (node', save node' db).

(** Modelled from the spec: [Node.accept_enlistment] of
    [maasserver.models] is missing.  A Declared node moves to Ready and
    is returned; an already accepted (Ready) node is skipped silently,
    with [None]; from any other status the transition is refused with
    [InvalidTransition], naming the current and the requested status. *)
Definition Node_accept_enlistment (node : Node) (u : User) (db : DB)
    : outcome (option Node) * DB :=
  match status node with
  | DECLARED =>
      let node' := with_status READY node in
      (Return (Some node'), save node' db)
  | READY => (Return None, db)
  | s => (Raise (InvalidTransition s READY), db)
  end.

(** The name constraint of an allocation request on one row. *)
Definition matches_constraints (constraints : gmap string string)
    (n : Node) : bool :=
  match constraints !! "name" with
  | None => true
  | Some name => bool_decide (hostname n = name)
  end.

(** The test a row passes to be a candidate of [acquire]. *)
Definition available (u : User) (constraints : gmap string string)
    (n : Node) : bool :=
  bool_decide (status n = READY) && has_perm u VIEW n
  && matches_constraints constraints n.

(** Modelled from the spec: [Node.objects.get_available_node_for_acquisition]
    of [maasserver.models] is missing.  The candidates are the Ready
    rows visible to the requester that satisfy the constraints; the
    first one in table order is picked. *)
Definition get_available_node_for_acquisition (db : DB) (for_user : User)
    (constraints : gmap string string) : option Node :=
  List.find (available for_user constraints) (nodes db).

(** Modelled from the spec: [Node.objects.stop_nodes] of
    [maasserver.models] is missing.  Authorize, then hand each
    authorized node to the power collaborator. *)
Definition stop_nodes (ids : list string) (by_user : User) (db : DB)
    : list Node * DB :=
  let authorized := get_nodes db by_user EDIT (Some ids) in
  (authorized,
   mkDB (nodes db) (saves db)
        (rev (map (fun n => requestStop (system_id n)) authorized)
         ++ power db)).

(** Modelled from the spec: [Node.objects.start_nodes] of
    [maasserver.models] is missing.  As [stop_nodes], with the user
    data passed on. *)
Definition start_nodes (ids : list string) (by_user : User)
    (user_data : option string) (db : DB) : list Node * DB :=
  let authorized := get_nodes db by_user EDIT (Some ids) in
  (authorized,
   mkDB (nodes db) (saves db)
        (rev (map (fun n => requestStart (system_id n) user_data)
                  authorized)
         ++ power db)).

(** *** [NodeHandler] *)

(** [NodeHandler.stop]. *)
Definition NodeHandler_stop (request : HttpRequest) (sid : string)
    (db : DB) : outcome Node * DB :=
  let '(nodes_, db') := stop_nodes [sid] (user request) db in
  match nodes_ with
  | [] =>
      (Raise (PermissionDenied
                "You are not allowed to shut down this node."), db')
  | node :: _ => (Return node, db')
  end.

(** [NodeHandler.start]. *)
Definition NodeHandler_start (request : HttpRequest) (sid : string)
    (db : DB) : outcome Node * DB :=
  let decoded :=
    match qd_get (POST request) "user_data" with
    | None => Return None
    | Some user_data =>
        match b64decode user_data with
        | Some bytes => Return (Some bytes)
        | None => Raise TypeError
        end
    end in
  match decoded with
  | Raise e => (Raise e, db)
  | Return user_data =>
      let '(nodes_, db') :=
        start_nodes [sid] (user request) user_data db in
      match nodes_ with
      | [] =>
          (Raise (PermissionDenied
                    "You are not allowed to start up this node."), db')
      | node :: _ => (Return node, db')
      end
  end.

(** The message of the [NodeStateViolation] that [release] raises. *)
Definition release_violation (node : Node) : string :=
  "Node cannot be released in its current state ('"
  +:+ display_status node +:+ "').".

(** [NodeHandler.release]. *)
Definition NodeHandler_release (request : HttpRequest) (sid : string)
    (db : DB) : outcome Node * DB :=
  match get_node_or_404 db sid (user request) EDIT with
  | Raise e => (Raise e, db)
  | Return node =>
      if bool_decide (status node = READY) then
        (* Nothing to do. *)
        (Return node, db)
      else if bool_decide (status node ∈ [ALLOCATED; RESERVED]) then
        let '(node', db') := Node_release node db in
        (Return node', db')
      else
        (Raise (NodeStateViolation (release_violation node)), db)
  end.

(** *** Enlistment *)

(** Modelled from the spec: the node creation form of [maasserver.forms] is
    missing.  [create_node(request)]: the validated attributes become a
    new row in Declared status, with no owner; invalid input raises
    [ValidationError] with the form errors. *)
Definition create_node (request : HttpRequest) (db : DB)
    : outcome Node * DB :=
  match node_create_form (user request) (data request) with
  | inr attributes =>
      let node := with_owner None (with_status DECLARED attributes) in
      (Return node, insert_node node db)
  | inl errors => (Raise (ValidationError errors), db)
  end.

(** *** [AnonNodesHandler] *)

(** [AnonNodesHandler.new]. *)
Definition AnonNodesHandler_new (request : HttpRequest) (db : DB)
    : outcome Node * DB :=
  create_node request db.

(** The [MACAddress] table: every address with the node it is attached
    to. *)
Definition MACAddress_objects (db : DB) : list (string * Node) :=
  flat_map (fun n => map (fun m => (m, n)) (macaddress_set n)) (nodes db).

(** [AnonNodesHandler.is_registered]. *)
Definition AnonNodesHandler_is_registered (request : HttpRequest) (db : DB)
    : outcome bool * DB :=
  match get_mandatory_param (GET request) "mac_address" with
  | Raise e => (Raise e, db)
  | Return mac_address =>
      let filtered :=
        List.filter (fun link => bool_decide (fst link = mac_address))
                    (MACAddress_objects db) in
      let kept :=
        List.filter
          (fun link => negb (bool_decide (status (snd link) = RETIRED)))
          filtered in
      (Return (match kept with [] => false | _ :: _ => true end), db)
  end.

(** [AnonNodesHandler.accept]. *)
Definition AnonNodesHandler_accept (request : HttpRequest) (db : DB)
    : outcome (list Node) * DB :=
  (Raise (Unauthorized "You must be logged in to accept nodes."), db).

(** [timedelta(minutes=m)], in microseconds. *)
Definition timedelta_minutes (m : Z) : Z := m * 60000000.

(** The query of the commissioning sweep. *)
Definition commissioning_overdue (cutoff : Z) (n : Node) : bool :=
  bool_decide (status n = COMMISSIONING) && Z.leb (updated n) cutoff.

(** [AnonNodesHandler.check_commissioning]; [now] is what
    [datetime.now()] reads. *)
Definition AnonNodesHandler_check_commissioning (now : Z)
    (request : HttpRequest) (db : DB) : outcome unit * DB :=
  let interval := timedelta_minutes COMMISSIONING_TIMEOUT in
  let cutoff := now - interval in
  (Return tt,
   QuerySet_update (commissioning_overdue cutoff)
                   (with_status FAILED_TESTS) db).

(** *** [NodesHandler] *)

(** [NodesHandler.new]: the created node is the object that
    [accept_enlistment] then changes, so the changed node is returned. *)
Definition NodesHandler_new (request : HttpRequest) (db : DB)
    : outcome Node * DB :=
  match create_node request db with
  | (Raise e, db') => (Raise e, db')
  | (Return node, db') =>
      if is_superuser (user request) then
        match Node_accept_enlistment node (user request) db' with
        | (Raise e, db'') => (Raise e, db'')
        | (Return (Some node'), db'') => (Return node', db'')
        | (Return None, db'') => (Return node, db'')
        end
      else (Return node, db')
  end.

(** [[node.accept_enlistment(request.user) for node in nodes]]: the calls
    run in order on the store; the first one that raises ends the loop. *)
Fixpoint accept_each (u : User) (l : list Node) (db : DB)
    : outcome (list (option Node)) * DB :=
  match l with
  | [] => (Return [], db)
  | node :: rest =>
      match Node_accept_enlistment node u db with
      | (Raise e, db') => (Raise e, db')
      | (Return r, db') =>
          match accept_each u rest db' with
          | (Raise e, db'') => (Raise e, db'')
          | (Return rs, db'') => (Return (r :: rs), db'')
          end
      end
  end.

(** The two messages of [NodesHandler.accept]. *)
Definition unknown_nodes_msg (ids : list string) : string :=
  "Unknown node(s): " +:+ join ", " ids +:+ ".".

Definition accept_denied_msg (ids : list string) : string :=
  "You don't have the required permission to accept the following node(s): "
  +:+ join ", " ids +:+ ".".

(** [NodesHandler.accept]. *)
Definition NodesHandler_accept (request : HttpRequest) (db : DB)
    : outcome (list Node) * DB :=
  let system_ids := set_of (qd_getlist (POST request) "nodes") in
  (* Check the existence of these nodes first. *)
  let existing_ids := set_of (map system_id (nodes db)) in
  if Nat.ltb (length existing_ids) (length system_ids) then
    (Raise (MAASAPIBadRequest
              (unknown_nodes_msg (list_difference system_ids existing_ids))),
     db)
  else
    (* Make sure that the user has the required permission. *)
    let nodes_ := get_nodes db (user request) ADMIN (Some system_ids) in
    let ids := set_of (map system_id nodes_) in
    if Nat.ltb (length nodes_) (length system_ids) then
      (Raise (PermissionDenied
                (accept_denied_msg (list_difference system_ids ids))), db)
    else
      match accept_each (user request) nodes_ db with
      | (Raise e, db') => (Raise e, db')
      | (Return results, db') => (Return (omap id results), db')
      end.

(** [NodesHandler.acquire]. *)
Definition NodesHandler_acquire (request : HttpRequest) (db : DB)
    : outcome Node * DB :=
  match get_available_node_for_acquisition
          db (user request) (extract_constraints (data request)) with
  | None => (Raise (NodesNotAvailable "No matching node is available."), db)
  | Some node =>
      match get_oauth_token request with
      | Raise e => (Raise e, db)
      | Return token =>
          let '(node', db') := Node_acquire node (user request) token db in
          (Return node', db')
      end
  end.

(** *** The operations of the lifecycle core *)

Inductive operation : Set :=
  | op_enlist_anonymous
  | op_enlist
  | op_accept_anonymous
  | op_accept
  | op_acquire
  | op_release (sid : string)
  | op_check_commissioning (now : Z)
  | op_start (sid : string)
  | op_stop (sid : string).

(** The store an operation leaves behind, whether it returned or raised. *)
Definition run (op : operation) (request : HttpRequest) (db : DB) : DB :=
  match op with
  | op_enlist_anonymous => snd (AnonNodesHandler_new request db)
  | op_enlist => snd (NodesHandler_new request db)
  | op_accept_anonymous => snd (AnonNodesHandler_accept request db)
  | op_accept => snd (NodesHandler_accept request db)
  | op_acquire => snd (NodesHandler_acquire request db)
  | op_release sid => snd (NodeHandler_release request sid db)
  | op_check_commissioning now =>
      snd (AnonNodesHandler_check_commissioning now request db)
  | op_start sid => snd (NodeHandler_start request sid db)
  | op_stop sid => snd (NodeHandler_stop request sid db)
  end.

End Handlers.

(** ** A concrete fleet

    Collaborators and a small table on which the handlers can be run. *)

Module Sample.

Definition alice : User := mkUser "alice" false.
Definition root : User := mkUser "root" true.

(** A superuser may do everything; another user may view the nodes that
    are free or their own, and edit their own. *)
Definition has_perm (u : User) (perm : NODE_PERMISSION) (n : Node) : bool :=
  is_superuser u ||
  match perm with
  | VIEW => bool_decide (owner n = None) || bool_decide (owner n = Some u)
  | EDIT => bool_decide (owner n = Some u)
  | ADMIN => false
  end.

Definition display_status (n : Node) : string :=
  match status n with
  | DECLARED => "Declared"
  | COMMISSIONING => "Commissioning"
  | FAILED_TESTS => "Failed tests"
  | READY => "Ready"
  | ALLOCATED => "Allocated to " +:+ from_option username "" (owner n)
  | RESERVED => "Reserved"
  | RETIRED => "Retired"
  end.

(** Twenty minutes. *)
Definition COMMISSIONING_TIMEOUT : Z := 20.

Definition Token_objects_get (key : string) : option Token :=
  if bool_decide (key = "alice-key") then Some (mkToken key) else None.

Definition b64decode (s : string) : option string := Some s.

Definition node_create_form (u : User) (d : QueryDict) : string + Node :=
  match qd_get d "hostname" with
  | Some h => inr (mkNode ("node-" +:+ h) h DECLARED None true 0 [])
  | None => inl "hostname: This field is required."
  end.

Definition declared1 : Node :=
  mkNode "node-1" "alpha" DECLARED None true 0 ["aa:bb:cc:dd:ee:01"].
Definition ready2 : Node :=
  mkNode "node-2" "beta" READY None true 0 ["aa:bb:cc:dd:ee:02"].
Definition allocated3 : Node :=
  mkNode "node-3" "gamma" ALLOCATED (Some alice) true 0 ["aa:bb:cc:dd:ee:03"].
Definition commissioning4 : Node :=
  mkNode "node-4" "delta" COMMISSIONING None true 1000000000 [].
Definition retired5 : Node :=
  mkNode "node-5" "epsilon" RETIRED None false 0 ["aa:bb:cc:dd:ee:05"].

Definition fleet : DB :=
  mkDB [declared1; ready2; allocated3; commissioning4; retired5] [] [].

(** A request by [u] with the given POST parameters (also seen as
    [request.data]) and GET parameters. *)
Definition request_of (u : User) (get post : QueryDict)
    (auth : option string) : HttpRequest :=
  mkRequest u get post post auth.

Definition release := NodeHandler_release has_perm display_status.
Definition accept := NodesHandler_accept has_perm.
Definition acquire := NodesHandler_acquire has_perm Token_objects_get.

(** An [Authorization] header that carries alice's token. *)
Definition alice_header : string :=
  "OAuth realm=maas, oauth_token=alice-key, oauth_nonce=42".
Definition is_registered := AnonNodesHandler_is_registered.
Definition check_commissioning :=
  AnonNodesHandler_check_commissioning COMMISSIONING_TIMEOUT.

End Sample.

(** ** The rest of [api.py]: exporting and dispatching operations *)

(** [dispatch_methods]: the method piston calls for each HTTP method. *)
Definition dispatch_methods : gmap string string :=
  {[ "GET" := "read"; "POST" := "create"; "PUT" := "update";
     "DELETE" := "delete" ]}.

(** [OP_PARAM]. *)
Definition OP_PARAM : string := "op".

(** A Python function object: its [__name__], its [_api_exported]
    attribute when it has one, and what it does. *)
Record function (F : Type) : Type := mkFunction {
  func_name : string;
  func_api_exported : option (gmap string string);
  func_body : F
}.
Arguments mkFunction {F} _ _ _.
Arguments func_name {F} _.
Arguments func_api_exported {F} _.
Arguments func_body {F} _.

(** What an attribute of a handler class can be: a plain function, the
    dispatcher that [api_operations] installs, or anything else (a tuple,
    a class method, a model). *)
Inductive attribute (F : Type) : Type :=
  | Function (f : function F)
  | Dispatcher
  | Other.
Arguments Function {F} f.
Arguments Dispatcher {F}.
Arguments Other {F}.

(** [api_exported(method, exported_as)(func)]; the left side is the
    message of the [ValueError]. *)
Definition api_exported {F : Type} (method : string)
    (exported_as : option string) (func : function F)
    : string + function F :=
  match dispatch_methods !! method with
  | None => inl ("Invalid method: '" +:+ method +:+ "'")
  | Some dispatch_name =>
      let exported_name :=
        match exported_as with
        | None => func_name func
        | Some name => name
        end in
      if bool_decide (exported_name = dispatch_name) then
        inl ("Cannot define a '" +:+ dispatch_name +:+ "' operation.")
      else
        inr (mkFunction (func_name func)
                        (Some {[ method := exported_name ]})
                        (func_body func))
  end.

(** [is_api_exported(thing, method)]. *)
Definition is_api_exported {F : Type} (thing : attribute F)
    (method : string) : bool :=
  match thing with
  | Function f =>
      match func_api_exported f with
      | Some exported => bool_decide (is_Some (exported !! method))
      | None => false
      end
  | Dispatcher | Other => false
  end.

(** The outcome of [perform_api_operation]: a bad-request response, or the
    call of a method of the handler. *)
Inductive dispatched (F : Type) : Type :=
  | HttpResponseBadRequest (msg : string)
  | Invoke (f : function F).
Arguments HttpResponseBadRequest {F} msg.
Arguments Invoke {F} f.

(** [perform_api_operation(handler, request, method)], on the
    [_available_api_methods] of the handler. *)
Definition perform_api_operation {F : Type}
    (available : gmap string (gmap string (function F)))
    (request : HttpRequest) (method : string) : dispatched F :=
  let data :=
    if bool_decide (method = "POST") then POST request else GET request in
  match qd_get data OP_PARAM with
  | None => HttpResponseBadRequest "Unknown operation."
  | Some op =>
      match available !! method with
      | None =>
          HttpResponseBadRequest ("Unknown operation: '" +:+ op +:+ "'.")
      | Some operations =>
          match operations !! op with
          | None =>
              HttpResponseBadRequest ("Unknown operation: '" +:+ op +:+ "'.")
          | Some f => Invoke f
          end
      end
  end.

(** The keys of [getattr(value, '_api_exported', {})]. *)
Definition exported_methods {F : Type} (thing : attribute F) : list string :=
  match thing with
  | Function f =>
      match func_api_exported f with
      | Some exported => (map_to_list exported).*1
      | None => []
      end
  | Dispatcher | Other => []
  end.

(** The exported functions of a class for one HTTP method, each with the
    name it is exported as. *)
Definition exported_as_for {F : Type} (vars : gmap string (attribute F))
    (method : string) : list (string * function F) :=
  omap (fun item : string * attribute F =>
          match snd item with
          | Function f =>
              if is_api_exported (Function f) method then
                match func_api_exported f with
                | Some exported =>
                    match exported !! method with
                    | Some name => Some (name, f)
                    | None => None
                    end
                | None => None
                end
              else None
          | Dispatcher | Other => None
          end)
       (map_to_list vars).

(** The operations [api_operations] registers for one HTTP method, keyed
    by the name each is exported as; where two share a name the later one
    in iteration order stays. *)
Definition operations_for {F : Type} (vars : gmap string (attribute F))
    (method : string) : gmap string (function F) :=
  list_to_map (reverse (exported_as_for vars method)).

(** One turn of the loop of [api_operations]: register the operations of
    [method] and install the dispatcher under the name piston calls;
    [None] where [dispatch_methods[method]] raises [KeyError]. *)
Definition api_operations_step {F : Type} (method : string)
    (cls : gmap string (attribute F) * gmap string (gmap string (function F)))
    : option (gmap string (attribute F)
              * gmap string (gmap string (function F))) :=
  let available' := <[ method := operations_for (fst cls) method ]> (snd cls) in
  match dispatch_methods !! method with
  | Some method_name =>
      Some (<[ method_name := Dispatcher ]> (fst cls), available')
  | None => None
  end.

(** The loop of [api_operations] over the overridden methods. *)
Fixpoint api_operations_loop {F : Type} (methods : list string)
    (cls : gmap string (attribute F) * gmap string (gmap string (function F)))
    : option (gmap string (attribute F)
              * gmap string (gmap string (function F))) :=
  match methods with
  | [] => Some cls
  | method :: rest =>
      match api_operations_step method cls with
      | Some cls' => api_operations_loop rest cls'
      | None => None
      end
  end.

(** The HTTP methods some attribute of the class is exported for. *)
Definition overriden_methods {F : Type} (vars : gmap string (attribute F))
    : list string :=
  remove_dups (concat (map (fun item : string * attribute F =>
                              exported_methods (snd item))
                           (map_to_list vars))).

(** [api_operations(cls)]: the class as its attributes and the
    [_available_api_methods] it inherits; the result holds the new
    attributes and the new table. *)
Definition api_operations {F : Type} (vars : gmap string (attribute F))
    (inherited : gmap string (gmap string (function F)))
    : option (gmap string (attribute F)
              * gmap string (gmap string (function F))) :=
  api_operations_loop (overriden_methods vars) (vars, inherited).

(** A function is exported as [op] for [method]. *)
Definition exports {F : Type} (f : function F) (method op : string) : Prop :=
  exists exported,
    func_api_exported f = Some exported /\ exported !! method = Some op.

(** [@api_exported(method) def name(...)] in a class body; [None] where
    the decorator raises. *)
Definition def_exported {F : Type} (method name : string) (body : F)
    : option (attribute F) :=
  match api_exported method None (mkFunction name None body) with
  | inr f => Some (Function f)
  | inl _ => None
  end.

(** The functions of [AnonNodesHandler]. *)
Inductive anon_function : Set :=
  | anon_new
  | anon_is_registered
  | anon_accept
  | anon_check_commissioning.

(** The attributes of [AnonNodesHandler] as its class body leaves them,
    before [api_operations] is applied. *)
Definition AnonNodesHandler_vars
    : option (gmap string (attribute anon_function)) :=
  new ← def_exported "POST" "new" anon_new;
  is_registered ← def_exported "GET" "is_registered" anon_is_registered;
  accept ← def_exported "POST" "accept" anon_accept;
  check_commissioning ←
    def_exported "POST" "check_commissioning" anon_check_commissioning;
  Some {[ "__module__" := Other;
          "__doc__" := Other;
          "allowed_methods" := Other;
          "fields" := Other;
          "new" := new;
          "is_registered" := is_registered;
          "accept" := accept;
          "check_commissioning" := check_commissioning;
          "resource_uri" := Other ]}.

(** [AnonNodesHandler] after [@api_operations]: its attributes and its
    [_available_api_methods]; [AnonymousBaseHandler] has no table to
    inherit. *)
Definition AnonNodesHandler_class
    : option (gmap string (attribute anon_function)
              * gmap string (gmap string (function anon_function))) :=
  vars ← AnonNodesHandler_vars; api_operations vars ∅.

(** Every character of a string passes a test. *)
Fixpoint string_forallb (p : ascii -> bool) (s : string) : bool :=
  match s with
  | EmptyString => true
  | String c s' => p c && string_forallb p s'
  end.

(** The double quote character. *)
Definition double_quote : ascii := "034"%char.

(** The information separators, [U+001C] to [U+001F]: the characters
    below 128 at which [split()] cuts a text string but not a byte
    string. *)
Definition is_separator (c : ascii) : bool :=
  N.leb 28 (N_of_ascii c) && N.leb (N_of_ascii c) 31.

(** [get_optional_list(data, key, default)]. *)
Definition get_optional_list (d : QueryDict) (key : string)
    (default : option (list string)) : option (list string) :=
  match qd_getlist d key with
  | [] => default
  | value => Some value
  end.

(** [get_boot_purpose(node)]. *)
Definition get_boot_purpose (node : option Node) : string :=
  match node with
  | None => "commissioning"
  | Some n =>
      if bool_decide (status n = COMMISSIONING) then "commissioning"
      else if bool_decide (status n = ALLOCATED) then
        if netboot n then "install" else "local"
      else "poweroff"
  end.

(** A row of the [NodeGroup] table, with the fields [api.py] reads. *)
Record NodeGroup : Set := mkNodeGroup {
  uuid : string;
  nodegroup_name : string;
  api_key : string
}.

(** The constants of [piston.utils.rc] that the handlers return. *)
Inductive rc : Set := DELETED | ALL_OK.

Section MoreHandlers.

Variable has_perm : User -> NODE_PERMISSION -> Node -> bool.

(** Python's [repr] of a string, as ['%r'] prints it. *)
Variable repr : string -> string.

(** [check_nodegroup_access(request, nodegroup)]. *)
Definition check_nodegroup_access (request : HttpRequest)
    (nodegroup : NodeGroup) : outcome unit :=
  match extract_oauth_key request with
  | Raise (Unauthorized msg) => Raise (PermissionDenied msg)
  | Raise e => Raise e
  | Return key =>
      if bool_decide (key <> api_key nodegroup) then
        Raise (PermissionDenied
                 ("Only allowed for the " +:+ repr (nodegroup_name nodegroup)
                  +:+ " worker."))
      else Return tt
  end.

(** [NodeHandler.read]. *)
Definition NodeHandler_read (request : HttpRequest) (sid : string) (db : DB)
    : outcome Node * DB :=
  (get_node_or_404 has_perm db sid (user request) VIEW, db).

(** [Node.delete()]: the row goes, and with it the addresses attached to
    it. *)
Definition Node_delete (node : Node) (db : DB) : DB :=
  mkDB (List.filter
          (fun m => negb (bool_decide (system_id m = system_id node)))
          (nodes db))
       (saves db) (power db).

(** [NodeHandler.delete]. *)
Definition NodeHandler_delete (request : HttpRequest) (sid : string)
    (db : DB) : outcome rc * DB :=
  match get_node_or_404 has_perm db sid (user request) ADMIN with
  | Raise e => (Raise e, db)
  | Return node => (Return DELETED, Node_delete node db)
  end.

(** [NodesHandler.list].  The filter on addresses joins the node table
    with the address table, so a node comes once for each of its addresses
    that matches; the table is in [id] order already. *)
Definition NodesHandler_list (request : HttpRequest) (db : DB)
    : outcome (list Node) * DB :=
  (* Get filters from request. *)
  let match_ids := get_optional_list (GET request) "id" None in
  let match_macs := get_optional_list (GET request) "mac_address" None in
  (* Fetch nodes and apply filters. *)
  let nodes_ := get_nodes has_perm db (user request) VIEW match_ids in
  let nodes_ :=
    match match_macs with
    | None => nodes_
    | Some macs =>
        flat_map
          (fun n =>
             map (fun _ => n)
                 (List.filter (fun m => bool_decide (m ∈ macs))
                              (macaddress_set n)))
          nodes_
    end in
  (Return nodes_, db).

End MoreHandlers.

(** ** Properties *)

(** *** The store *)

Lemma get_node_Some (db : DB) (sid : string) (n : Node) :
  get_node db sid = Some n -> n ∈ nodes db /\ system_id n = sid.
Proof.
  unfold get_node. intros H. apply find_some in H as [Hin Heq].
  split; [by apply list_elem_of_In | by apply bool_decide_eq_true in Heq].
Qed.

Lemma get_node_replace_same (rows : list Node) (sid : string) (n n' : Node) :
  List.find (fun m => bool_decide (system_id m = sid)) rows = Some n ->
  system_id n' = sid ->
  List.find (fun m => bool_decide (system_id m = sid)) (replace_row n' rows)
  = Some n'.
Proof.
  intros Hfind <-. induction rows as [|m rows IH]; simpl in *; [done|].
  destruct (bool_decide (system_id m = system_id n')) eqn:E; simpl.
  - by rewrite bool_decide_true.
  - rewrite E. by apply IH.
Qed.

Lemma get_node_replace_other (rows : list Node) (sid : string) (n' : Node) :
  system_id n' <> sid ->
  List.find (fun m => bool_decide (system_id m = sid)) (replace_row n' rows)
  = List.find (fun m => bool_decide (system_id m = sid)) rows.
Proof.
  intros Hne. induction rows as [|m rows IH]; simpl; [done|].
  destruct (bool_decide (system_id m = system_id n')) eqn:E1.
  - apply bool_decide_eq_true in E1.
    rewrite (bool_decide_false (system_id n' = sid)) by done.
    rewrite (bool_decide_false (system_id m = sid)) by congruence. apply IH.
  - by rewrite IH.
Qed.

Lemma get_node_save_same (db : DB) (sid : string) (n n' : Node) :
  get_node db sid = Some n -> system_id n' = sid ->
  get_node (save n' db) sid = Some n'.
Proof. apply get_node_replace_same. Qed.

Lemma get_node_save_other (db : DB) (sid : string) (n' : Node) :
  system_id n' <> sid -> get_node (save n' db) sid = get_node db sid.
Proof. apply get_node_replace_other. Qed.

Lemma elem_of_replace_row (n' m : Node) (rows : list Node) :
  m ∈ replace_row n' rows ->
  m = n' \/ (m ∈ rows /\ system_id m <> system_id n').
Proof.
  unfold replace_row. intros H. apply list_elem_of_fmap in H as [x [-> Hx]].
  case_bool_decide; [by left | by right].
Qed.

Lemma replace_row_ids (n' : Node) (rows : list Node) :
  map system_id (replace_row n' rows) = map system_id rows.
Proof.
  induction rows as [|m rows IH]; simpl; [done|].
  rewrite IH. by case_bool_decide as E; [rewrite E|].
Qed.

Lemma replace_row_absent (n' : Node) (rows : list Node) :
  system_id n' ∉ map system_id rows -> replace_row n' rows = rows.
Proof.
  induction rows as [|m rows IH]; simpl; [done|].
  intros Hnot. apply not_elem_of_cons in Hnot as [Hne Hnot].
  rewrite bool_decide_false by congruence. by rewrite IH.
Qed.

(** [save] keeps the invariant when the row written satisfies it. *)
Lemma save_inv (n' : Node) (db : DB) :
  node_inv n' -> db_inv db -> db_inv (save n' db).
Proof.
  unfold db_inv. intros Hn Hdb. apply Forall_forall. intros m Hm.
  apply elem_of_replace_row in Hm as [-> | [Hm _]]; [done|].
  by eapply Forall_forall in Hdb.
Qed.

Lemma insert_node_inv (n' : Node) (db : DB) :
  node_inv n' -> db_inv db -> db_inv (insert_node n' db).
Proof.
  unfold db_inv. intros Hn Hdb. simpl. apply Forall_app. split; [done|].
  by apply Forall_singleton.
Qed.

(** *** Lists and sets of ids *)

Lemma elem_of_filter_bool {A : Type} (f : A -> bool) (l : list A) (x : A) :
  x ∈ List.filter f l <-> x ∈ l /\ f x = true.
Proof. rewrite !list_elem_of_In. apply filter_In. Qed.

Lemma NoDup_map_filter {A B : Type} (g : A -> B) (f : A -> bool)
    (l : list A) :
  NoDup (map g l) -> NoDup (map g (List.filter f l)).
Proof.
  induction l as [|a l IH]; simpl; [done|].
  intros Hnd. apply NoDup_cons in Hnd as [Hnot Hnd].
  destruct (f a); simpl; [|by apply IH].
  apply NoDup_cons. split; [|by apply IH].
  intros Hin. apply Hnot.
  apply list_elem_of_fmap in Hin as [y [Hy Hin]].
  apply elem_of_filter_bool in Hin as [Hin _].
  apply list_elem_of_fmap. by exists y.
Qed.

Lemma elem_of_set_of (l : list string) (x : string) : x ∈ set_of l <-> x ∈ l.
Proof. apply elem_of_remove_dups. Qed.

Lemma NoDup_set_of (l : list string) : NoDup (set_of l).
Proof. apply NoDup_remove_dups. Qed.

(** Fewer distinct elements, all taken from [k], and one of [k] missing:
    the list is strictly shorter. *)
Lemma NoDup_missing_shorter (l k : list string) (x : string) :
  NoDup l -> (forall y, y ∈ l -> y ∈ k) -> x ∈ k -> x ∉ l ->
  (length l < length k)%nat.
Proof.
  intros Hnd Hsub Hx Hnot.
  assert (x :: l ⊆+ k) as Hle.
  { apply NoDup_submseteq.
    - by apply NoDup_cons.
    - intros y Hy. apply elem_of_cons in Hy as [-> | Hy]; auto. }
  apply submseteq_length in Hle. simpl in Hle. lia.
Qed.

Lemma NoDup_subset_length (l k : list string) :
  NoDup l -> (forall y, y ∈ l -> y ∈ k) -> (length l <= length k)%nat.
Proof.
  intros Hnd Hsub. apply submseteq_length. by apply NoDup_submseteq.
Qed.

(** Rows are determined by their id when ids are unique. *)
Lemma unique_row (db : DB) (n n' : Node) :
  unique_ids db -> n ∈ nodes db -> n' ∈ nodes db ->
  system_id n = system_id n' -> n = n'.
Proof.
  unfold unique_ids. generalize (nodes db). intros rows.
  induction rows as [|m rows IH]; simpl; intros Hnd Hn Hn' Heq.
  - by apply elem_of_nil in Hn.
  - apply NoDup_cons in Hnd as [Hnot Hnd].
    apply elem_of_cons in Hn as [-> | Hn];
      apply elem_of_cons in Hn' as [-> | Hn']; auto.
    + exfalso. apply Hnot. rewrite Heq. apply list_elem_of_fmap. by exists n'.
    + exfalso. apply Hnot. rewrite <- Heq. apply list_elem_of_fmap.
      by exists n.
Qed.

Lemma get_node_elem_of (db : DB) (n : Node) :
  n ∈ nodes db -> exists m, get_node db (system_id n) = Some m.
Proof.
  unfold get_node. intros Hin.
  destruct (List.find _ (nodes db)) as [m|] eqn:E; [by exists m|].
  exfalso. apply list_elem_of_In in Hin.
  pose proof (find_none _ _ E _ Hin) as Hf. simpl in Hf.
  by rewrite bool_decide_true in Hf.
Qed.

Lemma get_node_unique (db : DB) (n : Node) :
  unique_ids db -> n ∈ nodes db -> get_node db (system_id n) = Some n.
Proof.
  intros Hu Hin. destruct (get_node_elem_of _ _ Hin) as [m Hm].
  rewrite Hm. f_equal. apply get_node_Some in Hm as [Hm Hid].
  by apply (unique_row db).
Qed.

(** *** The loop of [accept] *)

Lemma accept_enlistment_Return (n : Node) (u : User) (db db1 : DB)
    (r : option Node) :
  Node_accept_enlistment n u db = (Return r, db1) ->
  (status n = DECLARED /\ r = Some (with_status READY n) /\
   db1 = save (with_status READY n) db) \/
  (status n = READY /\ r = None /\ db1 = db).
Proof.
  unfold Node_accept_enlistment.
  destruct (status n); intros [= <- <-]; auto.
Qed.

Lemma accept_each_cons_Return (u : User) (n : Node) (rest : list Node)
    (db db' : DB) (rs : list (option Node)) :
  accept_each u (n :: rest) db = (Return rs, db') ->
  exists r db1 rs',
    Node_accept_enlistment n u db = (Return r, db1) /\
    accept_each u rest db1 = (Return rs', db') /\ rs = r :: rs'.
Proof.
  cbn [accept_each].
  destruct (Node_accept_enlistment n u db) as [[r|e] db1]; [|done].
  destruct (accept_each u rest db1) as [[rs'|e] db2] eqn:Hrest; [|done].
  intros H. injection H as <- <-. by exists r, db1, rs'.
Qed.

(** What a run of the loop that reaches its end has done: every node of
    the list was Declared or Ready; the Declared ones are Ready in the
    store; the other rows of the store are as they were; the values kept
    by [filter(None, ...)] are the changed nodes. *)
Lemma accept_each_Return (u : User) (l : list Node) :
  forall (db db' : DB) (rs : list (option Node)),
  NoDup (map system_id l) ->
  (forall n, n ∈ l -> exists m, get_node db (system_id n) = Some m) ->
  accept_each u l db = (Return rs, db') ->
  (forall n, n ∈ l -> status n = DECLARED \/ status n = READY) /\
  (forall n, n ∈ l -> status n = DECLARED ->
     get_node db' (system_id n) = Some (with_status READY n)) /\
  (forall n, n ∈ l -> status n = READY ->
     get_node db' (system_id n) = get_node db (system_id n)) /\
  (forall sid, sid ∉ map system_id l -> get_node db' sid = get_node db sid) /\
  omap id rs =
    map (with_status READY)
        (List.filter (fun n => bool_decide (status n = DECLARED)) l).
Proof.
  induction l as [|n rest IH]; intros db db' rs Hnd Hrows Hrun.
  - simpl in Hrun. injection Hrun as <- <-.
    repeat split; try done; intros n Hn; by apply elem_of_nil in Hn.
  - apply accept_each_cons_Return in Hrun
      as (r & db1 & rs' & Hfirst & Hrest & ->).
    simpl in Hnd. apply NoDup_cons in Hnd as [Hfresh Hnd].
    assert (Hother : forall sid, sid <> system_id n ->
                       get_node db1 sid = get_node db sid).
    { intros sid Hne.
      apply accept_enlistment_Return in Hfirst
        as [(_ & _ & ->) | (_ & _ & ->)]; [|done].
      apply get_node_save_other. simpl. congruence. }
    assert (Hrows1 : forall m, m ∈ rest ->
                       exists m', get_node db1 (system_id m) = Some m').
    { intros m Hm. rewrite Hother; [apply Hrows; by right|].
      intros Heq. apply Hfresh. rewrite <- Heq.
      apply list_elem_of_fmap. by exists m. }
    destruct (IH db1 db' rs' Hnd Hrows1 Hrest)
      as (Hst & Hdecl & Hready & Hout & Hres).
    assert (Hn1 : get_node db' (system_id n) = get_node db1 (system_id n))
      by (by apply Hout).
    assert (Hrestne : forall m, m ∈ rest -> system_id m <> system_id n).
    { intros m Hm Heq. apply Hfresh. rewrite <- Heq.
      apply list_elem_of_fmap. by exists m. }
    apply accept_enlistment_Return in Hfirst
      as [(Hs & -> & Hdb1) | (Hs & -> & Hdb1)].
    + (* the head was Declared *)
      split; [|split; [|split; [|split]]].
      * intros m Hm. apply elem_of_cons in Hm as [-> | Hm]; auto.
      * intros m Hm Hsm. apply elem_of_cons in Hm as [-> | Hm]; [|auto].
        rewrite Hn1, Hdb1. destruct (Hrows n) as [m' Hm']; [by left|].
        by eapply get_node_save_same.
      * intros m Hm Hsm. apply elem_of_cons in Hm as [-> | Hm];
          [congruence|].
        rewrite Hready by done. apply Hother. by apply Hrestne.
      * intros sid Hsid. simpl in Hsid.
        apply not_elem_of_cons in Hsid as [Hne Hsid].
        rewrite Hout by done. by apply Hother.
      * change (omap id (Some (with_status READY n) :: rs'))
          with (with_status READY n :: omap id rs').
        rewrite Hres. cbn [List.filter].
        by rewrite bool_decide_true by done.
    + (* the head was Ready already *)
      subst db1. split; [|split; [|split; [|split]]].
      * intros m Hm. apply elem_of_cons in Hm as [-> | Hm]; auto.
      * intros m Hm Hsm. apply elem_of_cons in Hm as [-> | Hm];
          [congruence|auto].
      * intros m Hm Hsm. apply elem_of_cons in Hm as [-> | Hm]; auto.
      * intros sid Hsid. simpl in Hsid.
        apply not_elem_of_cons in Hsid as [Hne Hsid]. auto.
      * change (omap id (None :: rs')) with (omap id rs').
        rewrite Hres. cbn [List.filter].
        by rewrite bool_decide_false by congruence.
Qed.

Lemma accept_each_total (u : User) (l : list Node) :
  forall db : DB,
  (forall n, n ∈ l -> status n = DECLARED \/ status n = READY) ->
  exists rs db', accept_each u l db = (Return rs, db').
Proof.
  induction l as [|n rest IH]; intros db Hst; [by eexists _, _|].
  cbn [accept_each]. unfold Node_accept_enlistment.
  assert (Hrest : forall m, m ∈ rest -> status m = DECLARED \/ status m = READY)
    by (intros m Hm; apply Hst; by right).
  destruct (Hst n) as [-> | ->]; [by left| |].
  - destruct (IH (save (with_status READY n) db) Hrest) as (rs & db' & ->).
    by eexists _, _.
  - destruct (IH db Hrest) as (rs & db' & ->). by eexists _, _.
Qed.

Lemma length_set_of_NoDup (l : list string) :
  NoDup l -> length (set_of l) = length l.
Proof.
  intros Hnd. apply Permutation_length, NoDup_Permutation; auto.
  - apply NoDup_set_of.
  - intros x. apply elem_of_set_of.
Qed.

(** *** The invariant on single rows *)

Lemma node_inv_released (n : Node) :
  node_inv (with_owner None (with_status READY n)).
Proof. unfold node_inv. simpl. split; [done|]. by intros [|]. Qed.

Lemma node_inv_acquired (n : Node) (u : User) :
  node_inv (with_owner (Some u) (with_status ALLOCATED n)).
Proof. unfold node_inv. simpl. split; [by left|done]. Qed.

Lemma node_inv_created (attributes : Node) :
  node_inv (with_owner None (with_status DECLARED attributes)).
Proof. unfold node_inv. simpl. split; [done|]. by intros [|]. Qed.

Lemma node_inv_no_owner (n : Node) (s : NODE_STATUS) :
  node_inv n -> status n <> ALLOCATED -> status n <> RESERVED ->
  s <> ALLOCATED -> s <> RESERVED -> node_inv (with_status s n).
Proof.
  unfold node_inv. simpl. intros [Hown _] Ha Hr Hsa Hsr. split.
  - intros Ho. destruct (Hown Ho); done.
  - intros [|]; done.
Qed.

Lemma accept_enlistment_inv (n : Node) (u : User) (db : DB) :
  node_inv n -> db_inv db -> db_inv (snd (Node_accept_enlistment n u db)).
Proof.
  intros Hn Hdb. unfold Node_accept_enlistment.
  destruct (status n) eqn:E; try done. simpl.
  apply save_inv; [|done]. apply node_inv_no_owner; try done; congruence.
Qed.

Lemma accept_each_inv (u : User) (l : list Node) :
  forall db : DB,
  (forall n, n ∈ l -> node_inv n) -> db_inv db ->
  db_inv (snd (accept_each u l db)).
Proof.
  induction l as [|n rest IH]; intros db Hl Hdb; [done|].
  cbn [accept_each].
  pose proof (accept_enlistment_inv n u db (Hl n ltac:(by left)) Hdb) as H1.
  destruct (Node_accept_enlistment n u db) as [[r|e] db1]; [|done].
  simpl in H1.
  assert (Hrest : forall m, m ∈ rest -> node_inv m)
    by (intros m Hm; apply Hl; by right).
  pose proof (IH db1 Hrest H1) as H2.
  by destruct (accept_each u rest db1) as [[rs|e] db2].
Qed.

Section Properties.

Variable has_perm : User -> NODE_PERMISSION -> Node -> bool.
Variable display_status : Node -> string.
Variable COMMISSIONING_TIMEOUT : Z.
Variable Token_objects_get : string -> option Token.
Variable b64decode : string -> option string.
Variable node_create_form : User -> QueryDict -> string + Node.

Local Abbreviation release := (NodeHandler_release has_perm display_status).
Local Abbreviation accept := (NodesHandler_accept has_perm).
Local Abbreviation acquire :=
  (NodesHandler_acquire has_perm Token_objects_get).
Local Abbreviation check_commissioning :=
  (AnonNodesHandler_check_commissioning COMMISSIONING_TIMEOUT).

Lemma get_node_or_404_Return (db : DB) (sid : string) (u : User)
    (perm : NODE_PERMISSION) (node : Node) :
  get_node_or_404 has_perm db sid u perm = Return node ->
  get_node db sid = Some node /\ has_perm u perm node = true.
Proof.
  unfold get_node_or_404. destruct (get_node db sid) as [n|]; [|done].
  destruct (has_perm u perm n) eqn:E; [|done]. by intros [= ->].
Qed.

(** *** [release] *)

(** C1.  [release] on a node the requester may edit goes by the status of
    the node.  Ready: it returns the node and leaves the store as it is, so
    a second call does the same.  Allocated or Reserved: it returns the
    node with no owner and status Ready, and that is the row the store then
    holds for the id, every other row being as before.  Declared,
    Commissioning, FailedTests or Retired: it raises [NodeStateViolation]
    with the display status of the node in the message, and the store is
    unchanged. *)
Theorem release_by_status (request : HttpRequest) (sid : string) (db : DB)
    (node : Node) :
  get_node_or_404 has_perm db sid (user request) EDIT = Return node ->
  (status node = READY ->
     release request sid db = (Return node, db) /\
     release request sid (snd (release request sid db)) = (Return node, db))
  /\
  (status node = ALLOCATED \/ status node = RESERVED ->
     exists node' db',
       release request sid db = (Return node', db') /\
       owner node' = None /\ status node' = READY /\
       system_id node' = sid /\
       get_node db' sid = Some node' /\
       forall other, other <> sid -> get_node db' other = get_node db other)
  /\
  (status node = DECLARED \/ status node = COMMISSIONING \/
   status node = FAILED_TESTS \/ status node = RETIRED ->
     release request sid db =
       (Raise (NodeStateViolation
                 ("Node cannot be released in its current state ('"
                  +:+ display_status node +:+ "').")), db)).
Proof.
  intros Hget. pose proof (get_node_or_404_Return _ _ _ _ _ Hget) as [Hrow _].
  pose proof (get_node_Some _ _ _ Hrow) as [_ Hid].
  assert (Hready : status node = READY ->
                   release request sid db = (Return node, db)).
  { intros Hst. unfold NodeHandler_release. by rewrite Hget, Hst. }
  split; [|split].
  - intros Hst. split; [by apply Hready|].
    rewrite (Hready Hst). simpl. by apply Hready.
  - intros Hst.
    exists (with_owner None (with_status READY node)).
    exists (save (with_owner None (with_status READY node)) db).
    split; [|split; [done|split; [done|split; [done|split]]]].
    + unfold NodeHandler_release. rewrite Hget.
      by destruct Hst as [-> | ->].
    + by eapply get_node_save_same.
    + intros other Hne. apply get_node_save_other. simpl. congruence.
  - intros Hst. unfold NodeHandler_release, release_violation. rewrite Hget.
    by destruct Hst as [-> | [-> | [-> | ->]]].
Qed.

(** *** [accept] *)

Lemma elem_of_get_nodes (db : DB) (u : User) (perm : NODE_PERMISSION)
    (ids : list string) (n : Node) :
  n ∈ get_nodes has_perm db u perm (Some ids) <->
  n ∈ nodes db /\ has_perm u perm n = true /\ system_id n ∈ ids.
Proof.
  unfold get_nodes. rewrite elem_of_filter_bool, andb_true_iff.
  by rewrite bool_decide_eq_true.
Qed.

Lemma get_nodes_ids_NoDup (db : DB) (u : User) (perm : NODE_PERMISSION)
    (ids : option (list string)) :
  unique_ids db -> NoDup (map system_id (get_nodes has_perm db u perm ids)).
Proof. intros Hu. by apply NoDup_map_filter. Qed.

Lemma get_nodes_ids_subset (db : DB) (u : User) (perm : NODE_PERMISSION)
    (ids : list string) (sid : string) :
  sid ∈ map system_id (get_nodes has_perm db u perm (Some ids)) -> sid ∈ ids.
Proof.
  intros Hin. apply list_elem_of_fmap in Hin as [n [-> Hn]].
  by apply elem_of_get_nodes in Hn as (_ & _ & Hn).
Qed.

(** A node the user has no capability on is not among the matched nodes. *)
Lemma get_nodes_not_permitted (db : DB) (u : User) (perm : NODE_PERMISSION)
    (ids : list string) (sid : string) (n : Node) :
  unique_ids db -> get_node db sid = Some n -> has_perm u perm n = false ->
  sid ∉ map system_id (get_nodes has_perm db u perm (Some ids)).
Proof.
  intros Hu Hget Hperm Hin.
  apply list_elem_of_fmap in Hin as [n' [Hid Hn']].
  apply elem_of_get_nodes in Hn' as (Hn' & Hp & _).
  apply get_node_Some in Hget as [Hn Hsid].
  assert (n = n') by (apply (unique_row db); congruence).
  congruence.
Qed.

Lemma get_nodes_permitted (db : DB) (u : User) (perm : NODE_PERMISSION)
    (ids : list string) (sid : string) (n : Node) :
  get_node db sid = Some n -> has_perm u perm n = true -> sid ∈ ids ->
  sid ∈ map system_id (get_nodes has_perm db u perm (Some ids)).
Proof.
  intros Hget Hperm Hin. apply get_node_Some in Hget as [Hn Hsid].
  apply list_elem_of_fmap. exists n. split; [done|].
  apply elem_of_get_nodes. by rewrite Hsid.
Qed.

(** When every id of the batch names a row, the existence check lets the
    batch through. *)
Lemma accept_existence_check (db : DB) (batch : list string) :
  (forall sid, sid ∈ batch -> exists n, get_node db sid = Some n) ->
  Nat.ltb (length (set_of (map system_id (nodes db))))
          (length (set_of batch)) = false.
Proof.
  intros Hall. apply Nat.ltb_ge. apply NoDup_subset_length.
  - apply NoDup_set_of.
  - intros y Hy. rewrite elem_of_set_of in Hy.
    destruct (Hall y Hy) as [n Hn]. apply get_node_Some in Hn as [Hn <-].
    rewrite elem_of_set_of. apply list_elem_of_fmap. by exists n.
Qed.

(** C8.  When every id of the batch names a row of the table and the
    actor lacks admin capability on at least one of those rows, [accept]
    raises [PermissionDenied], its message lists exactly the ids of the
    batch the actor has no admin capability on, each once, and the store
    is unchanged. *)
Theorem accept_permission_denied (request : HttpRequest) (db : DB) :
  unique_ids db ->
  (forall sid, sid ∈ qd_getlist (POST request) "nodes" ->
     exists n, get_node db sid = Some n) ->
  (exists sid n, sid ∈ qd_getlist (POST request) "nodes" /\
     get_node db sid = Some n /\ has_perm (user request) ADMIN n = false) ->
  exists denied,
    accept request db =
      (Raise (PermissionDenied
                ("You don't have the required permission to accept the "
                 +:+ "following node(s): " +:+ join ", " denied +:+ ".")),
       db) /\
    NoDup denied /\
    forall sid, sid ∈ denied <->
      sid ∈ qd_getlist (POST request) "nodes" /\
      exists n, get_node db sid = Some n /\
                has_perm (user request) ADMIN n = false.
Proof.
  intros Hu Hall (bad & nbad & Hbad & Hgetbad & Hperm).
  set (batch := qd_getlist (POST request) "nodes") in *.
  set (nodes_ := get_nodes has_perm db (user request) ADMIN
                           (Some (set_of batch))).
  exists (list_difference (set_of batch) (set_of (map system_id nodes_))).
  split; [|split].
  - unfold NodesHandler_accept. fold batch.
    rewrite accept_existence_check by done. fold nodes_.
    assert (Nat.ltb (length nodes_) (length (set_of batch)) = true) as ->.
    { apply Nat.ltb_lt. rewrite <- (length_map system_id nodes_).
      apply NoDup_missing_shorter with (x := bad).
      - by apply get_nodes_ids_NoDup.
      - apply get_nodes_ids_subset.
      - by rewrite elem_of_set_of.
      - by eapply get_nodes_not_permitted. }
    done.
  - apply NoDup_list_difference, NoDup_set_of.
  - intros sid. rewrite list_elem_of_difference, !elem_of_set_of.
    split.
    + intros [Hin Hnot]. split; [done|].
      destruct (Hall sid Hin) as [n Hn]. exists n. split; [done|].
      destruct (has_perm (user request) ADMIN n) eqn:E; [|done].
      exfalso. apply Hnot. eapply get_nodes_permitted; eauto.
      by rewrite elem_of_set_of.
    + intros [Hin (n & Hn & Hp)]. split; [done|].
      by eapply get_nodes_not_permitted.
Qed.

(** A run of [accept] that returns has passed both checks and run the loop
    to its end. *)
Lemma accept_Return (request : HttpRequest) (db db' : DB) (res : list Node) :
  accept request db = (Return res, db') ->
  let system_ids := set_of (qd_getlist (POST request) "nodes") in
  let nodes_ := get_nodes has_perm db (user request) ADMIN (Some system_ids) in
  (length system_ids <= length nodes_)%nat /\
  exists rs, accept_each (user request) nodes_ db = (Return rs, db') /\
             res = omap id rs.
Proof.
  unfold NodesHandler_accept. intros H.
  destruct (Nat.ltb (length (set_of (map system_id (nodes db)))) _); [done|].
  destruct (Nat.ltb _ _) eqn:E; [done|]. apply Nat.ltb_ge in E.
  split; [done|].
  destruct (accept_each _ _ db) as [[rs|e] db2]; [|done].
  injection H as <- <-. by exists rs.
Qed.

(** C7.  When [accept] returns, on a table with unique ids: every id of
    the batch names a row the actor has admin capability on, which was
    Declared or Ready; a row of the batch that was Declared is now the same
    row with status Ready; a row of the batch that was Ready is unchanged;
    so is every row outside the batch; and the ids of the returned nodes
    are exactly the ids whose row changed status, the returned nodes being
    the rows as they now are. *)
Theorem accept_changes_declared (request : HttpRequest) (db db' : DB)
    (res : list Node) :
  unique_ids db ->
  accept request db = (Return res, db') ->
  (forall sid, sid ∈ qd_getlist (POST request) "nodes" ->
     exists n, get_node db sid = Some n /\
               has_perm (user request) ADMIN n = true /\
               (status n = DECLARED \/ status n = READY)) /\
  (forall sid n, sid ∈ qd_getlist (POST request) "nodes" ->
     get_node db sid = Some n -> status n = DECLARED ->
     get_node db' sid = Some (with_status READY n)) /\
  (forall sid n, sid ∈ qd_getlist (POST request) "nodes" ->
     get_node db sid = Some n -> status n = READY ->
     get_node db' sid = Some n) /\
  (forall sid, sid ∉ qd_getlist (POST request) "nodes" ->
     get_node db' sid = get_node db sid) /\
  (forall sid, sid ∈ map system_id res <->
     exists n n', get_node db sid = Some n /\ get_node db' sid = Some n' /\
                  status n <> status n') /\
  (forall n', n' ∈ res -> get_node db' (system_id n') = Some n').
Proof.
  intros Hu Hrun. apply accept_Return in Hrun as (Hlen & rs & Hloop & ->).
  set (batch := qd_getlist (POST request) "nodes") in *.
  set (nodes_ := get_nodes has_perm db (user request) ADMIN
                           (Some (set_of batch))) in *.
  assert (Hnd : NoDup (map system_id nodes_)) by by apply get_nodes_ids_NoDup.
  assert (Hin_db : forall n, n ∈ nodes_ -> n ∈ nodes db).
  { intros n Hn. by apply elem_of_get_nodes in Hn as (? & _). }
  assert (Hrows : forall n, n ∈ nodes_ ->
                    exists m, get_node db (system_id n) = Some m).
  { intros n Hn. apply get_node_elem_of. by apply Hin_db. }
  destruct (accept_each_Return _ _ _ _ _ Hnd Hrows Hloop)
    as (Hst & Hdecl & Hready & Hout & Hres).
  (* every id of the batch was matched *)
  assert (Hmatched : forall sid, sid ∈ batch ->
                       exists n, n ∈ nodes_ /\ system_id n = sid).
  { intros sid Hsid.
    destruct (decide (sid ∈ map system_id nodes_)) as [Hin|Hnot].
    - apply list_elem_of_fmap in Hin as (n & -> & Hn). by exists n.
    - exfalso. rewrite <- (length_map system_id nodes_) in Hlen.
      enough (length (map system_id nodes_) < length (set_of batch))%nat
        by lia.
      apply NoDup_missing_shorter with (x := sid); try done.
      + apply get_nodes_ids_subset.
      + by rewrite elem_of_set_of. }
  assert (Hsame : forall sid n, sid ∈ batch -> get_node db sid = Some n ->
                    n ∈ nodes_).
  { intros sid n Hsid Hget. destruct (Hmatched sid Hsid) as (m & Hm & Hid).
    pose proof (get_node_unique db m Hu (Hin_db m Hm)) as Hgm.
    rewrite Hid, Hget in Hgm. by injection Hgm as ->. }
  assert (Hbatch : forall sid, sid ∉ batch -> sid ∉ map system_id nodes_).
  { intros sid Hsid Hin. apply Hsid.
    apply get_nodes_ids_subset in Hin. by rewrite elem_of_set_of in Hin. }
  split; [|split; [|split; [|split; [|split]]]].
  - intros sid Hsid. destruct (Hmatched sid Hsid) as (n & Hn & Hid).
    exists n. split; [|split].
    + rewrite <- Hid. apply get_node_unique; auto.
    + by apply elem_of_get_nodes in Hn as (_ & ? & _).
    + by apply Hst.
  - intros sid n Hsid Hget Hs.
    pose proof (get_node_Some _ _ _ Hget) as [_ <-].
    apply Hdecl; [by eapply Hsame|done].
  - intros sid n Hsid Hget Hs.
    pose proof (get_node_Some _ _ _ Hget) as [_ Hid]. subst sid.
    rewrite <- Hget. apply Hready; [by eapply Hsame|done].
  - intros sid Hsid. apply Hout. by apply Hbatch.
  - intros sid. rewrite Hres. split.
    + intros Hin. apply list_elem_of_fmap in Hin as (n' & -> & Hn').
      apply list_elem_of_fmap in Hn' as (n & -> & Hn).
      apply elem_of_filter_bool in Hn as [Hn Hs].
      apply bool_decide_eq_true in Hs.
      exists n, (with_status READY n). simpl. split; [|split].
      * apply get_node_unique; auto.
      * by apply Hdecl.
      * by rewrite Hs.
    + intros (n & n' & Hget & Hget' & Hne).
      destruct (decide (sid ∈ map system_id nodes_)) as [Hin|Hnot].
      * apply list_elem_of_fmap in Hin as (m & -> & Hm).
        pose proof (get_node_unique db m Hu (Hin_db m Hm)) as Hgm.
        rewrite Hget in Hgm. injection Hgm as ->.
        destruct (Hst m Hm) as [Hs|Hs].
        -- apply list_elem_of_fmap. exists (with_status READY m).
           split; [done|]. apply list_elem_of_fmap. exists m. split; [done|].
           apply elem_of_filter_bool. by rewrite bool_decide_eq_true.
        -- rewrite (Hready m Hm Hs), Hget in Hget'. by injection Hget' as ->.
      * rewrite (Hout sid Hnot), Hget in Hget'. by injection Hget' as ->.
  - intros n' Hn'. rewrite Hres in Hn'.
    apply list_elem_of_fmap in Hn' as (n & -> & Hn).
    apply elem_of_filter_bool in Hn as [Hn Hs].
    apply bool_decide_eq_true in Hs. exact (Hdecl n Hn Hs).
Qed.

(** [accept] does return on a batch of existing nodes the actor has admin
    capability on, each Declared or Ready. *)
Lemma accept_succeeds (request : HttpRequest) (db : DB) :
  unique_ids db ->
  (forall sid, sid ∈ qd_getlist (POST request) "nodes" ->
     exists n, get_node db sid = Some n /\
               has_perm (user request) ADMIN n = true /\
               (status n = DECLARED \/ status n = READY)) ->
  exists res db', accept request db = (Return res, db').
Proof.
  intros Hu Hall. unfold NodesHandler_accept.
  set (batch := qd_getlist (POST request) "nodes") in *.
  rewrite accept_existence_check
    by (intros sid Hsid; destruct (Hall sid Hsid) as (n & ? & _); eauto).
  set (nodes_ := get_nodes has_perm db (user request) ADMIN
                           (Some (set_of batch))).
  assert (Nat.ltb (length nodes_) (length (set_of batch)) = false) as ->.
  { apply Nat.ltb_ge. rewrite <- (length_map system_id nodes_).
    apply NoDup_subset_length; [apply NoDup_set_of|].
    intros sid Hsid. pose proof Hsid as Hb. rewrite elem_of_set_of in Hb.
    destruct (Hall sid Hb) as (n & Hn & Hp & _).
    by eapply get_nodes_permitted. }
  destruct (accept_each_total (user request) nodes_ db) as (rs & db' & ->).
  - intros n Hn. apply elem_of_get_nodes in Hn as (Hn & _ & Hid).
    rewrite elem_of_set_of in Hid.
    destruct (Hall _ Hid) as (m & Hm & _ & Hst).
    rewrite (get_node_unique db n Hu Hn) in Hm. by injection Hm as ->.
  - by eexists _, _.
Qed.

(** Where the table holds at least as many rows as the batch has distinct
    ids, an id of the batch that names no row does not make [accept] raise
    [MAASAPIBadRequest]: the existence check compares the batch with the
    whole table, lets it through, and the permission check then raises
    [PermissionDenied]. *)
Lemma accept_unknown_id_passes_existence_check (request : HttpRequest)
    (db : DB) :
  unique_ids db ->
  (length (set_of (qd_getlist (POST request) "nodes"))
     <= length (nodes db))%nat ->
  (exists sid, sid ∈ qd_getlist (POST request) "nodes" /\
               get_node db sid = None) ->
  exists msg, accept request db = (Raise (PermissionDenied msg), db).
Proof.
  intros Hu Hlen (ghost & Hghost & Hnone). unfold NodesHandler_accept.
  set (batch := qd_getlist (POST request) "nodes") in *.
  assert (Nat.ltb (length (set_of (map system_id (nodes db))))
                  (length (set_of batch)) = false) as ->.
  { apply Nat.ltb_ge.
    rewrite (length_set_of_NoDup (map system_id (nodes db))) by done.
    by rewrite length_map. }
  set (nodes_ := get_nodes has_perm db (user request) ADMIN
                           (Some (set_of batch))).
  assert (Nat.ltb (length nodes_) (length (set_of batch)) = true) as ->.
  { apply Nat.ltb_lt. rewrite <- (length_map system_id nodes_).
    apply NoDup_missing_shorter with (x := ghost).
    - by apply get_nodes_ids_NoDup.
    - apply get_nodes_ids_subset.
    - by rewrite elem_of_set_of.
    - intros Hin. apply list_elem_of_fmap in Hin as (n & Hid & Hn).
      apply elem_of_get_nodes in Hn as (Hn & _).
      subst ghost. by rewrite (get_node_unique db n Hu Hn) in Hnone. }
  by eexists.
Qed.

(** *** [acquire] *)

(** The candidates of an allocation request. *)
Lemma available_iff (u : User) (d : QueryDict) (n : Node) :
  available has_perm u (extract_constraints d) n = true <->
  status n = READY /\ has_perm u VIEW n = true /\
  (forall name, qd_get d "name" = Some name -> hostname n = name).
Proof.
  unfold available, matches_constraints, extract_constraints.
  rewrite !andb_true_iff, bool_decide_eq_true.
  destruct (qd_get d "name") as [name|].
  - rewrite lookup_singleton_eq, bool_decide_eq_true.
    split; [intros [[? ?] ?]|intros (? & ? & H)]; repeat split; auto.
    by intros ? [= <-].
  - rewrite lookup_empty. split; [intros [[? ?] ?]|intros (? & ? & H)]; auto.
    by repeat split.
Qed.

(** What [acquire] has done when it returns. *)
Lemma acquire_Return (request : HttpRequest) (db db' : DB) (node' : Node) :
  acquire request db = (Return node', db') ->
  exists n, n ∈ nodes db /\
    available has_perm (user request)
              (extract_constraints (data request)) n = true /\
    node' = with_owner (Some (user request)) (with_status ALLOCATED n) /\
    db' = save node' db /\
    get_node db' (system_id n) = Some node' /\
    forall other, other <> system_id n ->
      get_node db' other = get_node db other.
Proof.
  unfold NodesHandler_acquire, get_available_node_for_acquisition.
  destruct (List.find _ (nodes db)) as [n|] eqn:E; [|done].
  destruct (get_oauth_token _ request) as [token|]; [|done].
  unfold Node_acquire. intros [= <- <-].
  apply find_some in E as [Hin Hav]. apply list_elem_of_In in Hin.
  exists n. split; [done|]. split; [done|]. split; [done|]. split; [done|].
  split.
  - destruct (get_node_elem_of db n Hin) as [m Hm].
    by eapply get_node_save_same.
  - intros other Hne. by apply get_node_save_other.
Qed.

(** C3.  A node is a candidate of [acquire] when it is Ready, visible to
    the requester and, if the request carries a [name], has that name.
    (1) Only [name] is read from the request parameters: two parameter
    sets with the same [name] select the same node.  (2) With no candidate
    in the table [acquire] raises [NodesNotAvailable].  (3) Whenever
    [acquire] raises, the store is unchanged.  (4) When [acquire] returns,
    it returns a candidate of the table with owner set to the requester
    and status Allocated; that is the row the store then holds for the id,
    and every other row is as before.  (5) With a candidate in the table
    and a known OAuth token, [acquire] does return. *)
Theorem acquire_candidate_or_not_available (request : HttpRequest) (db : DB) :
  let candidate (n : Node) :=
    status n = READY /\ has_perm (user request) VIEW n = true /\
    (forall name, qd_get (data request) "name" = Some name ->
       hostname n = name) in
  (forall d : QueryDict,
     qd_get d "name" = qd_get (data request) "name" ->
     get_available_node_for_acquisition has_perm db (user request)
       (extract_constraints d) =
     get_available_node_for_acquisition has_perm db (user request)
       (extract_constraints (data request))) /\
  ((forall n, n ∈ nodes db -> ~ candidate n) ->
     acquire request db =
       (Raise (NodesNotAvailable "No matching node is available."), db)) /\
  (forall e db', acquire request db = (Raise e, db') -> db' = db) /\
  (forall node' db',
     acquire request db = (Return node', db') ->
     exists n, n ∈ nodes db /\ candidate n /\
       node' = with_owner (Some (user request)) (with_status ALLOCATED n) /\
       owner node' = Some (user request) /\ status node' = ALLOCATED /\
       get_node db' (system_id n) = Some node' /\
       forall other, other <> system_id n ->
         get_node db' other = get_node db other) /\
  (forall token,
     (exists n, n ∈ nodes db /\ candidate n) ->
     get_oauth_token Token_objects_get request = Return token ->
     exists node' db', acquire request db = (Return node', db')).
Proof.
  intros candidate.
  assert (Hcand : forall n,
            available has_perm (user request)
              (extract_constraints (data request)) n = true <-> candidate n)
    by (intros n; apply available_iff).
  split; [|split; [|split; [|split]]].
  - intros d Hd. unfold extract_constraints. by rewrite Hd.
  - intros Hnone.
    unfold NodesHandler_acquire, get_available_node_for_acquisition.
    destruct (List.find _ (nodes db)) as [n|] eqn:E; [|done].
    apply find_some in E as [Hin Hav]. apply list_elem_of_In in Hin.
    exfalso. apply (Hnone n Hin). by apply Hcand.
  - intros e db'.
    unfold NodesHandler_acquire, get_available_node_for_acquisition.
    destruct (List.find _ (nodes db)) as [n|].
    + destruct (get_oauth_token _ request); [done|]. by intros [= _ <-].
    + by intros [= _ <-].
  - intros node' db' Hrun.
    apply acquire_Return in Hrun as (n & Hin & Hav & -> & _ & Hget & Hother).
    exists n. split; [done|]. split; [by apply Hcand|]. by repeat split.
  - intros token (n & Hin & Hn) Htoken.
    unfold NodesHandler_acquire, get_available_node_for_acquisition.
    rewrite Htoken.
    destruct (List.find _ (nodes db)) as [m|] eqn:E; [by eexists _, _|].
    apply list_elem_of_In in Hin.
    pose proof (find_none _ _ E n Hin) as Hf. simpl in Hf.
    apply Hcand in Hn. congruence.
Qed.

(** Two [acquire] calls served one after the other never hand out the same
    node: the node the first call returns is no candidate for the second. *)
Lemma acquire_twice_distinct (request1 request2 : HttpRequest)
    (db db1 db2 : DB) (node1 node2 : Node) :
  unique_ids db ->
  acquire request1 db = (Return node1, db1) ->
  acquire request2 db1 = (Return node2, db2) ->
  system_id node1 <> system_id node2.
Proof.
  intros Hu H1 H2 Heq.
  apply acquire_Return in H1 as (n1 & Hin1 & _ & Hn1 & Hdb1 & Hget1 & _).
  apply acquire_Return in H2 as (n2 & Hin2 & Hav2 & Hn2 & _).
  assert (Hu1 : unique_ids db1).
  { rewrite Hdb1. unfold unique_ids. simpl. by rewrite replace_row_ids. }
  assert (system_id n1 = system_id n2) as Hid
    by (rewrite Hn1, Hn2 in Heq; exact Heq).
  rewrite Hid, (get_node_unique db1 n2 Hu1 Hin2) in Hget1.
  injection Hget1 as Hrow.
  unfold available in Hav2. rewrite !andb_true_iff in Hav2.
  destruct Hav2 as [[Hready _] _]. apply bool_decide_eq_true in Hready.
  rewrite Hrow, Hn1 in Hready. done.
Qed.

(** With one candidate in the table, the first of two [acquire] calls
    served one after the other gets it and the second finds none. *)
Lemma acquire_twice_single_candidate (request : HttpRequest) (db db1 : DB)
    (node1 : Node) :
  unique_ids db ->
  (forall n m, n ∈ nodes db -> m ∈ nodes db ->
     available has_perm (user request)
               (extract_constraints (data request)) n = true ->
     available has_perm (user request)
               (extract_constraints (data request)) m = true -> n = m) ->
  acquire request db = (Return node1, db1) ->
  acquire request db1 =
    (Raise (NodesNotAvailable "No matching node is available."), db1).
Proof.
  intros Hu Hone H1.
  apply acquire_Return in H1 as (n1 & Hin1 & Hav1 & Hn1 & Hdb1 & _).
  unfold NodesHandler_acquire, get_available_node_for_acquisition.
  destruct (List.find _ (nodes db1)) as [m|] eqn:E; [|done].
  exfalso. apply find_some in E as [Hin Hav].
  apply list_elem_of_In in Hin. rewrite Hdb1 in Hin. simpl in Hin.
  apply elem_of_replace_row in Hin as [-> | [Hin Hne]].
  - rewrite Hn1 in Hav. unfold available in Hav. simpl in Hav. done.
  - assert (m = n1) as -> by (by apply Hone).
    apply Hne. by rewrite Hn1.
Qed.

(** *** The commissioning sweep *)

(** C6.  [check_commissioning] returns and rewrites the table row by row,
    in place.  A row that is Commissioning and whose [updated] is at or
    before [now] minus the timeout is, after the sweep, a row whose status
    is FailedTests and whose id, hostname, owner, netboot flag, time stamp
    and addresses are those it had.  Every other row, a Commissioning one
    updated after the cut-off included, stays as it is; so a row whose
    status differs after the sweep was Commissioning and overdue.  No
    [save()] is recorded and nothing is sent to the power collaborator. *)
Theorem check_commissioning_sweep (now : Z) (request : HttpRequest) (db : DB) :
  let cutoff := now - COMMISSIONING_TIMEOUT * 60000000 in
  exists db',
    check_commissioning now request db = (Return tt, db') /\
    length (nodes db') = length (nodes db) /\
    saves db' = saves db /\ power db' = power db /\
    forall (i : nat) (n : Node), nodes db !! i = Some n ->
      (status n = COMMISSIONING /\ updated n <= cutoff ->
         exists n', nodes db' !! i = Some n' /\
           status n' = FAILED_TESTS /\
           system_id n' = system_id n /\ hostname n' = hostname n /\
           owner n' = owner n /\ netboot n' = netboot n /\
           updated n' = updated n /\
           macaddress_set n' = macaddress_set n /\
           n' = with_status FAILED_TESTS n) /\
      (~ (status n = COMMISSIONING /\ updated n <= cutoff) ->
         nodes db' !! i = Some n) /\
      (status n = COMMISSIONING -> cutoff < updated n ->
         nodes db' !! i = Some n) /\
      (forall n', nodes db' !! i = Some n' -> status n' <> status n ->
         status n = COMMISSIONING /\ updated n <= cutoff /\
         status n' = FAILED_TESTS).
Proof.
  intros cutoff.
  exists (QuerySet_update (commissioning_overdue cutoff)
                          (with_status FAILED_TESTS) db).
  split; [reflexivity|].
  unfold QuerySet_update. cbn [nodes saves power].
  split; [by rewrite length_map|]. split; [done|]. split; [done|].
  intros i n Hi.
  assert (Hq : commissioning_overdue cutoff n = true <->
               status n = COMMISSIONING /\ updated n <= cutoff).
  { unfold commissioning_overdue.
    by rewrite andb_true_iff, bool_decide_eq_true, Z.leb_le. }
  change (map ?f ?l) with (f <$> l). rewrite list_lookup_fmap, Hi.
  cbn [fmap option_fmap option_map].
  split; [|split; [|split]].
  - intros H. apply Hq in H. rewrite H.
    exists (with_status FAILED_TESTS n). by repeat split.
  - intros H. destruct (commissioning_overdue cutoff n); [|done].
    exfalso. apply H. by apply Hq.
  - intros Hs Hlt. destruct (commissioning_overdue cutoff n); [|done].
    destruct (proj1 Hq eq_refl) as [_ Hle]. lia.
  - intros n' Hn' Hne.
    destruct (commissioning_overdue cutoff n) eqn:E.
    + destruct (proj1 Hq eq_refl) as [Hs Hle]. injection Hn' as <-.
      by repeat split.
    + injection Hn' as <-. done.
Qed.

(** *** [is_registered] *)

Lemma elem_of_MACAddress_objects (db : DB) (m : string) (n : Node) :
  (m, n) ∈ MACAddress_objects db <-> n ∈ nodes db /\ m ∈ macaddress_set n.
Proof.
  unfold MACAddress_objects. rewrite list_elem_of_In, in_flat_map. split.
  - intros (x & Hx & Hin). apply in_map_iff in Hin as (y & [= <- <-] & Hy).
    by rewrite !list_elem_of_In.
  - intros [Hn Hm]. exists n. rewrite <- list_elem_of_In. split; [done|].
    apply in_map_iff. exists m. by rewrite <- list_elem_of_In.
Qed.

(** C9.  Given a [mac_address] parameter, [is_registered] returns, leaves
    the store as it is, and its answer is true exactly when some node that
    is not Retired has that very address attached; when every node the
    address is attached to is Retired, the answer is false. *)
Theorem is_registered_iff (request : HttpRequest) (db : DB) (mac : string) :
  qd_get (GET request) "mac_address" = Some mac ->
  exists answer : bool,
    AnonNodesHandler_is_registered request db = (Return answer, db) /\
    (answer = true <->
       exists n, n ∈ nodes db /\ mac ∈ macaddress_set n /\
                 status n <> RETIRED) /\
    ((forall n, n ∈ nodes db -> mac ∈ macaddress_set n ->
        status n = RETIRED) -> answer = false).
Proof.
  intros Hmac. unfold AnonNodesHandler_is_registered, get_mandatory_param.
  rewrite Hmac. eexists. split; [reflexivity|].
  set (kept := List.filter _ (List.filter _ (MACAddress_objects db))).
  assert (Hkept : forall link, link ∈ kept <->
            snd link ∈ nodes db /\ mac ∈ macaddress_set (snd link) /\
            fst link = mac /\ status (snd link) <> RETIRED).
  { intros [m n]. unfold kept.
    rewrite !elem_of_filter_bool, elem_of_MACAddress_objects. simpl.
    rewrite negb_true_iff, bool_decide_eq_false, bool_decide_eq_true.
    split; [intros [[[? ?] ->] ?]|intros (? & ? & -> & ?)]; auto. }
  assert (Hiff : match kept with [] => false | _ :: _ => true end = true <->
                 exists n, n ∈ nodes db /\ mac ∈ macaddress_set n /\
                           status n <> RETIRED).
  { split.
    - destruct kept as [|link rest] eqn:E; [done|]. intros _.
      assert (link ∈ link :: rest) as Hin by by left.
      apply Hkept in Hin as (? & ? & ? & ?). by exists (snd link).
    - intros (n & Hn & Hm & Hs).
      assert ((mac, n) ∈ kept) as Hin by by apply Hkept.
      destruct kept; [by apply elem_of_nil in Hin|done]. }
  split; [done|].
  intros Hall. apply not_true_is_false. intros Htrue.
  apply Hiff in Htrue as (n & Hn & Hm & Hs). by apply Hs, Hall.
Qed.

(** *** Anonymous [accept] *)

(** C10.  The anonymous [accept] raises [Unauthorized] whatever the request
    holds, and the store is unchanged. *)
Theorem anonymous_accept_unauthorized (request : HttpRequest) (db : DB) :
  AnonNodesHandler_accept request db =
    (Raise (Unauthorized "You must be logged in to accept nodes."), db).
Proof. reflexivity. Qed.

(** *** The invariant *)

Local Abbreviation run_op :=
  (run has_perm display_status COMMISSIONING_TIMEOUT Token_objects_get
       b64decode node_create_form).

Lemma create_node_inv (request : HttpRequest) (db : DB) :
  db_inv db ->
  db_inv (snd (create_node node_create_form request db)) /\
  forall node db', create_node node_create_form request db
                     = (Return node, db') -> node_inv node.
Proof.
  intros Hdb. unfold create_node.
  destruct (node_create_form _ _) as [errors|attributes]; simpl.
  - by split.
  - split.
    + apply insert_node_inv; [apply node_inv_created|done].
    + intros node db' [= <- _]. apply node_inv_created.
Qed.

Lemma new_inv (request : HttpRequest) (db : DB) :
  db_inv db -> db_inv (snd (NodesHandler_new node_create_form request db)).
Proof.
  intros Hdb. unfold NodesHandler_new.
  destruct (create_node_inv request db Hdb) as [H1 H2].
  destruct (create_node _ request db) as [[node|e] db1]; [|done].
  simpl in H1. destruct (is_superuser (user request)); [|done].
  pose proof (accept_enlistment_inv node (user request) db1
                (H2 _ _ eq_refl) H1) as H3.
  by destruct (Node_accept_enlistment _ _ db1) as [[[node'|]|e] db2].
Qed.

Lemma accept_inv (request : HttpRequest) (db : DB) :
  db_inv db -> db_inv (snd (accept request db)).
Proof.
  intros Hdb. unfold NodesHandler_accept.
  destruct (Nat.ltb _ _); [done|]. destruct (Nat.ltb _ _); [done|].
  set (nodes_ := get_nodes _ _ _ _ _).
  assert (forall n, n ∈ nodes_ -> node_inv n) as Hall.
  { intros n Hn. apply elem_of_get_nodes in Hn as (Hn & _).
    by eapply Forall_forall in Hdb. }
  pose proof (accept_each_inv (user request) nodes_ db Hall Hdb) as H.
  by destruct (accept_each _ _ db) as [[rs|e] db'].
Qed.

Lemma acquire_inv (request : HttpRequest) (db : DB) :
  db_inv db -> db_inv (snd (acquire request db)).
Proof.
  intros Hdb. unfold NodesHandler_acquire.
  destruct (get_available_node_for_acquisition _ _ _ _) as [n|]; [|done].
  destruct (get_oauth_token _ request) as [token|]; [|done].
  simpl. apply save_inv; [apply node_inv_acquired|done].
Qed.

Lemma release_inv (request : HttpRequest) (sid : string) (db : DB) :
  db_inv db -> db_inv (snd (release request sid db)).
Proof.
  intros Hdb. unfold NodeHandler_release.
  destruct (get_node_or_404 _ _ _ _ _) as [node|]; [|done].
  destruct (bool_decide (status node = READY)); [done|].
  destruct (bool_decide (status node ∈ [ALLOCATED; RESERVED])); [|done].
  simpl. apply save_inv; [apply node_inv_released|done].
Qed.

Lemma check_commissioning_inv (now : Z) (request : HttpRequest) (db : DB) :
  db_inv db -> db_inv (snd (check_commissioning now request db)).
Proof.
  unfold db_inv. simpl. intros Hdb. apply Forall_forall. intros m Hm.
  apply list_elem_of_fmap in Hm as (n & -> & Hn).
  eapply Forall_forall in Hdb; [|done].
  unfold commissioning_overdue.
  destruct (bool_decide (status n = COMMISSIONING)) eqn:E; [|done].
  apply bool_decide_eq_true in E. destruct (Z.leb _ _); [|done]. simpl.
  apply node_inv_no_owner; try done; congruence.
Qed.

Lemma start_inv (request : HttpRequest) (sid : string) (db : DB) :
  db_inv db ->
  db_inv (snd (NodeHandler_start has_perm b64decode request sid db)).
Proof.
  intros Hdb. unfold NodeHandler_start, start_nodes.
  destruct (qd_get _ _) as [user_data|].
  - destruct (b64decode user_data); [|done].
    by destruct (get_nodes _ _ _ _ _).
  - by destruct (get_nodes _ _ _ _ _).
Qed.

Lemma stop_inv (request : HttpRequest) (sid : string) (db : DB) :
  db_inv db -> db_inv (snd (NodeHandler_stop has_perm request sid db)).
Proof.
  intros Hdb. unfold NodeHandler_stop, stop_nodes.
  by destruct (get_nodes _ _ _ _ _).
Qed.

(** C5.  Every operation of the lifecycle core (anonymous and
    authenticated enlistment, anonymous and authenticated accept, acquire,
    release, the commissioning sweep, start, stop) leaves a table in which
    each row has an owner if and only if it is Allocated or Reserved,
    provided the table was so before, whether the operation returns or
    raises. *)
Theorem operations_preserve_owner_invariant (op : operation)
    (request : HttpRequest) (db : DB) :
  db_inv db -> db_inv (run_op op request db).
Proof.
  intros Hdb. destruct op; cbn [run].
  - by apply create_node_inv.
  - by apply new_inv.
  - done.
  - by apply accept_inv.
  - by apply acquire_inv.
  - by apply release_inv.
  - by apply check_commissioning_inv.
  - by apply start_inv.
  - by apply stop_inv.
Qed.

End Properties.

(** C1 at the sample fleet: alice releases the node allocated to her. *)
Lemma release_by_status_witness :
  get_node_or_404 Sample.has_perm Sample.fleet "node-3" Sample.alice EDIT
    = Return Sample.allocated3 /\
  exists node' db',
    Sample.release (Sample.request_of Sample.alice ∅ ∅ None)
                   "node-3" Sample.fleet = (Return node', db') /\
    owner node' = None /\ status node' = READY /\
    system_id node' = "node-3" /\
    get_node db' "node-3" = Some node' /\
    forall other, other <> "node-3" ->
      get_node db' other = get_node Sample.fleet other.
Proof.
  split; [reflexivity|].
  exact (proj1 (proj2 (release_by_status Sample.has_perm Sample.display_status
                         (Sample.request_of Sample.alice ∅ ∅ None) "node-3"
                         Sample.fleet Sample.allocated3 eq_refl))
               (or_introl eq_refl)).
Defined.

(** ** The properties on the sample fleet *)

(** C2 on the sample fleet: a batch of three ids, of which [ghost] names
    no node, submitted by a superuser.  [accept] does not raise
    [MAASAPIBadRequest]: the table holds five nodes, the batch three ids,
    so the existence check passes, and the permission check raises
    [PermissionDenied] naming [ghost].  The store is unchanged. *)
Lemma accept_unknown_id_raises_permission_denied :
  get_node Sample.fleet "ghost" = None /\
  Sample.accept
    (Sample.request_of Sample.root ∅
       {[ "nodes" := ["node-1"; "node-2"; "ghost"] ]} None)
    Sample.fleet
  = (Raise (PermissionDenied
              ("You don't have the required permission to accept the "
               +:+ "following node(s): ghost.")),
     Sample.fleet).
Proof. split; vm_compute; reflexivity. Qed.

(** C3 on the sample fleet: alice asks for any node and gets the Ready
    one. *)
Lemma acquire_candidate_or_not_available_witness :
  exists node' db',
    Sample.acquire
      (Sample.request_of Sample.alice ∅ ∅ (Some Sample.alice_header))
      Sample.fleet = (Return node', db').
Proof.
  refine (proj2 (proj2 (proj2 (proj2
            (acquire_candidate_or_not_available
               Sample.has_perm Sample.Token_objects_get
               (Sample.request_of Sample.alice ∅ ∅ (Some Sample.alice_header))
               Sample.fleet))))
            (mkToken "alice-key") _ eq_refl).
  exists Sample.ready2. split.
  - apply list_elem_of_In. simpl. tauto.
  - split; [reflexivity|]. split; [reflexivity|]. intros name H.
    vm_compute in H. discriminate H.
Defined.

(** C5 on the sample fleet: the invariant holds before and after alice
    acquires a node. *)
Lemma operations_preserve_owner_invariant_witness :
  db_inv Sample.fleet /\
  db_inv (run Sample.has_perm Sample.display_status
              Sample.COMMISSIONING_TIMEOUT Sample.Token_objects_get
              Sample.b64decode Sample.node_create_form op_acquire
              (Sample.request_of Sample.alice ∅ ∅ (Some Sample.alice_header))
              Sample.fleet).
Proof.
  assert (H : db_inv Sample.fleet).
  { apply (bool_decide_unpack _). vm_compute. exact I. }
  split; [exact H|].
  exact (operations_preserve_owner_invariant
           Sample.has_perm Sample.display_status Sample.COMMISSIONING_TIMEOUT
           Sample.Token_objects_get Sample.b64decode Sample.node_create_form
           op_acquire
           (Sample.request_of Sample.alice ∅ ∅ (Some Sample.alice_header))
           Sample.fleet H).
Defined.

(** C6 on the sample fleet: forty minutes in, with a timeout of twenty, the
    node commissioning since minute sixteen and forty seconds fails its
    tests. *)
Lemma check_commissioning_sweep_witness :
  exists db',
    Sample.check_commissioning 2400000000
      (Sample.request_of Sample.alice ∅ ∅ None) Sample.fleet
      = (Return tt, db') /\
    exists n', nodes db' !! 3%nat = Some n' /\
      status n' = FAILED_TESTS /\ system_id n' = "node-4" /\
      updated n' = 1000000000.
Proof.
  destruct (check_commissioning_sweep Sample.COMMISSIONING_TIMEOUT 2400000000
              (Sample.request_of Sample.alice ∅ ∅ None) Sample.fleet)
    as (db' & Hrun & _ & _ & _ & Hrows).
  exists db'. split; [exact Hrun|].
  destruct (proj1 (Hrows 3%nat Sample.commissioning4 eq_refl))
    as (n' & Hn' & Hs & Hid & _ & _ & _ & Hup & _).
  - split; [reflexivity|]. vm_compute. discriminate.
  - exists n'. by repeat split.
Defined.

(** C7 on the sample fleet: a superuser accepts a Declared and a Ready
    node. *)
Lemma accept_changes_declared_witness :
  let request :=
    Sample.request_of Sample.root ∅ {[ "nodes" := ["node-1"; "node-2"] ]}
                      None in
  let db' := snd (Sample.accept request Sample.fleet) in
  unique_ids Sample.fleet /\
  Sample.accept request Sample.fleet
    = (Return [with_status READY Sample.declared1], db') /\
  get_node db' "node-1" = Some (with_status READY Sample.declared1) /\
  get_node db' "node-2" = Some Sample.ready2.
Proof.
  intros request db'.
  assert (Hu : unique_ids Sample.fleet).
  { apply (bool_decide_unpack _). vm_compute. exact I. }
  assert (Hrun : Sample.accept request Sample.fleet
                 = (Return [with_status READY Sample.declared1], db'))
    by (vm_compute; reflexivity).
  split; [exact Hu|]. split; [exact Hrun|].
  destruct (accept_changes_declared Sample.has_perm request Sample.fleet db'
              _ Hu Hrun) as (_ & Hdecl & Hready & _).
  split.
  - apply (Hdecl "node-1" Sample.declared1); [|reflexivity|reflexivity].
    vm_compute. apply list_elem_of_In. simpl. tauto.
  - apply (Hready "node-2" Sample.ready2); [|reflexivity|reflexivity].
    vm_compute. apply list_elem_of_In. simpl. tauto.
Defined.

(** C8 on the sample fleet: alice, who is no admin, submits two existing
    nodes. *)
Lemma accept_permission_denied_witness :
  let request :=
    Sample.request_of Sample.alice ∅ {[ "nodes" := ["node-1"; "node-2"] ]}
                      None in
  unique_ids Sample.fleet /\
  exists denied,
    Sample.accept request Sample.fleet =
      (Raise (PermissionDenied
                ("You don't have the required permission to accept the "
                 +:+ "following node(s): " +:+ join ", " denied +:+ ".")),
       Sample.fleet) /\
    NoDup denied /\
    forall sid, sid ∈ denied <->
      sid ∈ qd_getlist (POST request) "nodes" /\
      exists n, get_node Sample.fleet sid = Some n /\
                Sample.has_perm (user request) ADMIN n = false.
Proof.
  intros request.
  assert (Hu : unique_ids Sample.fleet).
  { apply (bool_decide_unpack _). vm_compute. exact I. }
  split; [exact Hu|].
  apply (accept_permission_denied Sample.has_perm request Sample.fleet Hu).
  - intros sid Hsid. vm_compute in Hsid. apply list_elem_of_In in Hsid.
    destruct Hsid as [<- | [<- | []]]; eexists; reflexivity.
  - exists "node-1", Sample.declared1. split; [|split; reflexivity].
    vm_compute. apply list_elem_of_In. simpl. tauto.
Defined.

(** C9 on the sample fleet: the address of the Ready node is registered. *)
Lemma is_registered_iff_witness :
  let request :=
    Sample.request_of Sample.alice
      {[ "mac_address" := ["aa:bb:cc:dd:ee:02"] ]} ∅ None in
  qd_get (GET request) "mac_address" = Some "aa:bb:cc:dd:ee:02" /\
  exists answer : bool,
    AnonNodesHandler_is_registered request Sample.fleet
      = (Return answer, Sample.fleet) /\
    (answer = true <->
       exists n, n ∈ nodes Sample.fleet /\
                 "aa:bb:cc:dd:ee:02" ∈ macaddress_set n /\
                 status n <> RETIRED) /\
    ((forall n, n ∈ nodes Sample.fleet ->
        "aa:bb:cc:dd:ee:02" ∈ macaddress_set n -> status n = RETIRED) ->
     answer = false).
Proof.
  intros request. split; [reflexivity|].
  exact (is_registered_iff request Sample.fleet "aa:bb:cc:dd:ee:02" eq_refl).
Defined.

(** The header parser drops the comma after the value and the quotes
    around it. *)
Example extract_oauth_key_quoted :
  extract_oauth_key_from_auth_header
    ("OAuth realm=maas, oauth_token=" +:+ String "034" "alice-key"
     +:+ String "034" ", oauth_nonce=42")
  = Return (Some "alice-key").
Proof. vm_compute. reflexivity. Qed.

(** An entry with a byte above 127 before the token makes the parser
    raise; after the token it is never looked at. *)
Example extract_oauth_key_non_ascii :
  extract_oauth_key_from_auth_header
    ("realm=" +:+ String "233" "" +:+ " oauth_token=k")
  = Raise UnicodeDecodeError /\
  extract_oauth_key_from_auth_header
    ("oauth_token=k realm=" +:+ String "233" "") = Return (Some "k").
Proof. split; vm_compute; reflexivity. Qed.

(** The address attached to the Retired node only is not registered. *)
Example is_registered_retired :
  fst (Sample.is_registered
         (Sample.request_of Sample.alice
            {[ "mac_address" := ["aa:bb:cc:dd:ee:05"] ]} ∅ None)
         Sample.fleet) = Return false.
Proof. vm_compute. reflexivity. Qed.

(** ** Further properties: exporting and dispatching *)

Lemma dispatch_methods_lookup (method name : string) :
  dispatch_methods !! method = Some name <->
  (method = "GET" /\ name = "read") \/ (method = "POST" /\ name = "create") \/
  (method = "PUT" /\ name = "update") \/
  (method = "DELETE" /\ name = "delete").
Proof.
  unfold dispatch_methods.
  rewrite !lookup_insert_Some, lookup_singleton_Some. split.
  - intros [[<- <-]|[_ [[<- <-]|[_ [[<- <-]|[_ [<- <-]]]]]]]; auto.
  - intros [[-> ->]|[[-> ->]|[[-> ->]|[-> ->]]]]; auto 10.
Qed.

(** X1.  [api_exported] accepts a function exactly when the HTTP method is
    GET, POST, PUT or DELETE and the name the function is exported as is
    not the one piston reserves for that method (read, create, update,
    delete); any other use raises [ValueError].  The accepted function
    keeps its name and body and is exported for that method only. *)
Theorem api_exported_accepts {F : Type} (method : string)
    (exported_as : option string) (func : function F) :
  let exported_name := default (func_name func) exported_as in
  ((exists func', api_exported method exported_as func = inr func') <->
   (method = "GET" /\ exported_name <> "read") \/
   (method = "POST" /\ exported_name <> "create") \/
   (method = "PUT" /\ exported_name <> "update") \/
   (method = "DELETE" /\ exported_name <> "delete")) /\
  (forall func', api_exported method exported_as func = inr func' ->
     func_name func' = func_name func /\ func_body func' = func_body func /\
     is_api_exported (Function func') method = true /\
     forall other, other <> method ->
       is_api_exported (Function func') other = false).
Proof.
  intros exported_name. unfold api_exported.
  assert (Hname : match exported_as with
                  | Some name => name
                  | None => func_name func
                  end = exported_name) by (by destruct exported_as).
  rewrite Hname. split.
  - destruct (dispatch_methods !! method) as [d|] eqn:E.
    + apply dispatch_methods_lookup in E. case_bool_decide as Hd.
      * split; [by intros [? ?]|].
        intros H. exfalso.
        destruct E as [[-> ->]|[[-> ->]|[[-> ->]|[-> ->]]]];
          destruct H as [[? ?]|[[? ?]|[[? ?]|[? ?]]]]; done.
      * split; [|by eexists]. intros _.
        destruct E as [[-> ->]|[[-> ->]|[[-> ->]|[-> ->]]]]; auto 10.
    + split; [by intros [? ?]|]. intros H. exfalso.
      assert (exists d, dispatch_methods !! method = Some d) as [d Hd].
      { destruct H as [[-> _]|[[-> _]|[[-> _]|[-> _]]]]; by eexists. }
      congruence.
  - intros func'. destruct (dispatch_methods !! method) as [d|]; [|done].
    case_bool_decide; [done|]. intros [= <-]. simpl.
    split; [done|]. split; [done|]. split.
    + rewrite lookup_singleton_eq. by apply bool_decide_eq_true.
    + intros other Hne. rewrite lookup_singleton_ne by done.
      apply bool_decide_eq_false. by intros [? ?].
Qed.

Lemma elem_of_exported_as_for {F : Type} (vars : gmap string (attribute F))
    (method op : string) (f : function F) :
  (op, f) ∈ exported_as_for vars method <->
  exists name, vars !! name = Some (Function f) /\ exports f method op.
Proof.
  unfold exported_as_for, exports. rewrite list_elem_of_omap. split.
  - intros ([name thing] & Hin & Hsome). cbn [snd] in Hsome.
    apply elem_of_map_to_list in Hin.
    destruct thing as [g| |]; try done.
    destruct (is_api_exported (Function g) method); [|done].
    destruct (func_api_exported g) as [exported|] eqn:Ee; [|done].
    destruct (exported !! method) as [op'|] eqn:Em; [|done].
    injection Hsome as <- <-. exists name. split; [done|]. by exists exported.
  - intros (name & Hvar & exported & He & Hm).
    exists (name, Function f). split; [by apply elem_of_map_to_list|].
    cbn [snd]. unfold is_api_exported. rewrite He, Hm.
    rewrite bool_decide_true by (by eexists). done.
Qed.

Lemma operations_for_Some {F : Type} (vars : gmap string (attribute F))
    (method op : string) (f : function F) :
  operations_for vars method !! op = Some f ->
  exists name, vars !! name = Some (Function f) /\ exports f method op.
Proof.
  unfold operations_for. intros H. apply elem_of_list_to_map_2 in H.
  rewrite elem_of_reverse in H. by apply elem_of_exported_as_for in H.
Qed.

Lemma operations_for_unique {F : Type} (vars : gmap string (attribute F))
    (method op name : string) (f : function F) :
  vars !! name = Some (Function f) -> exports f method op ->
  (forall name' f', vars !! name' = Some (Function f') ->
     exports f' method op -> f' = f) ->
  operations_for vars method !! op = Some f.
Proof.
  intros Hvar Hex Huniq. unfold operations_for.
  apply elem_of_list_to_map_1'.
  - intros f' Hin. rewrite elem_of_reverse in Hin.
    apply elem_of_exported_as_for in Hin as (name' & Hvar' & Hex').
    symmetry. by eapply Huniq.
  - rewrite elem_of_reverse. apply elem_of_exported_as_for. by exists name.
Qed.

(** What the loop of [api_operations] keeps true: the functions of the
    class are functions of the class as it was written, and each
    registered operation is inherited or exported by such a function. *)
Lemma api_operations_loop_sound {F : Type}
    (vars0 : gmap string (attribute F))
    (inherited : gmap string (gmap string (function F)))
    (methods : list string) :
  forall vars available vars' available',
  (forall name f, vars !! name = Some (Function f) ->
     vars0 !! name = Some (Function f)) ->
  (forall method operations op f,
     available !! method = Some operations -> operations !! op = Some f ->
     (exists name, vars0 !! name = Some (Function f) /\ exports f method op)
     \/ (exists inherited_ops, inherited !! method = Some inherited_ops /\
                               inherited_ops !! op = Some f)) ->
  api_operations_loop methods (vars, available) = Some (vars', available') ->
  forall method operations op f,
    available' !! method = Some operations -> operations !! op = Some f ->
    (exists name, vars0 !! name = Some (Function f) /\ exports f method op)
    \/ (exists inherited_ops, inherited !! method = Some inherited_ops /\
                              inherited_ops !! op = Some f).
Proof.
  induction methods as [|m rest IH];
    intros vars available vars' available' Hvars Hav Hloop.
  - injection Hloop as <- <-. exact Hav.
  - cbn [api_operations_loop] in Hloop. unfold api_operations_step in Hloop.
    simpl in Hloop.
    destruct (dispatch_methods !! m) as [method_name|]; [|done].
    eapply IH; [| |exact Hloop].
    + intros name f Hlook. apply lookup_insert_Some in Hlook
        as [[_ ?]|[_ Hlook]]; [done|]. by apply Hvars.
    + intros method operations op f Hlook Hop.
      apply lookup_insert_Some in Hlook as [[<- <-]|[_ Hlook]].
      * left. apply operations_for_Some in Hop as (name & Hvar & Hex).
        exists name. split; [by apply Hvars|done].
      * by eapply Hav.
Qed.

(** X2.  Through [perform_api_operation], on the table [api_operations]
    builds for a class, a request only ever reaches a function that the
    class exports for that HTTP method under the very name the request
    gives as [op] (or an operation the class inherits under that name).
    The name is read from the POST data for a POST and from the query
    string for every other method. *)
Theorem dispatch_only_exported {F : Type} (vars vars' : gmap string (attribute F))
    (inherited available : gmap string (gmap string (function F)))
    (request : HttpRequest) (method : string) (f : function F) :
  api_operations vars inherited = Some (vars', available) ->
  perform_api_operation available request method = Invoke f ->
  exists op,
    qd_get (if bool_decide (method = "POST") then POST request
            else GET request) "op" = Some op /\
    ((exists name, vars !! name = Some (Function f) /\ exports f method op)
     \/ (exists inherited_ops, inherited !! method = Some inherited_ops /\
                               inherited_ops !! op = Some f)).
Proof.
  unfold api_operations, perform_api_operation, OP_PARAM. intros Hloop Hrun.
  destruct (qd_get _ "op") as [op|]; [|done].
  destruct (available !! method) as [operations|] eqn:Em; [|done].
  destruct (operations !! op) as [g|] eqn:Eo; [|done].
  injection Hrun as ->. exists op. split; [done|].
  eapply (api_operations_loop_sound vars inherited); eauto.
Qed.

Lemma elem_of_overriden_methods {F : Type} (vars : gmap string (attribute F))
    (name method op : string) (f : function F) :
  vars !! name = Some (Function f) -> exports f method op ->
  method ∈ overriden_methods vars.
Proof.
  intros Hvar (exported & He & Hm). unfold overriden_methods.
  apply elem_of_remove_dups, list_elem_of_In, in_concat.
  exists (exported_methods (Function f)). split.
  - apply in_map_iff. exists (name, Function f). split; [done|].
    apply list_elem_of_In. by apply elem_of_map_to_list.
  - apply list_elem_of_In. simpl. rewrite He.
    apply list_elem_of_fmap. exists (method, op). split; [done|].
    by apply elem_of_map_to_list.
Qed.

Lemma api_operations_loop_complete {F : Type} (name method op : string)
    (f : function F) (methods : list string) :
  forall vars available vars' available',
  NoDup methods ->
  (forall m, dispatch_methods !! m <> Some name) ->
  vars !! name = Some (Function f) -> exports f method op ->
  (forall name' f', vars !! name' = Some (Function f') ->
     exports f' method op -> f' = f) ->
  api_operations_loop methods (vars, available) = Some (vars', available') ->
  (method ∈ methods ->
     exists operations, available' !! method = Some operations /\
                        operations !! op = Some f) /\
  (method ∉ methods -> available' !! method = available !! method).
Proof.
  induction methods as [|m rest IH];
    intros vars available vars' available' Hnd Hname Hvar Hex Huniq Hloop.
  - injection Hloop as <- <-. split; [|done].
    intros Hin. by apply elem_of_nil in Hin.
  - cbn [api_operations_loop] in Hloop. unfold api_operations_step in Hloop.
    cbn [fst snd] in Hloop.
    destruct (dispatch_methods !! m) as [d|] eqn:Ed; [|done].
    apply NoDup_cons in Hnd as [Hfresh Hnd].
    assert (Hd : d <> name) by (intros ->; by apply (Hname m)).
    assert (Hvar1 : <[d := Dispatcher]> vars !! name = Some (Function f))
      by (by rewrite lookup_insert_ne).
    assert (Huniq1 : forall name' f',
              <[d := Dispatcher]> vars !! name' = Some (Function f') ->
              exports f' method op -> f' = f).
    { intros name' f' Hlook. apply lookup_insert_Some in Hlook
        as [[_ ?]|[_ Hlook]]; [done|]. by apply (Huniq name'). }
    destruct (IH _ _ _ _ Hnd Hname Hvar1 Hex Huniq1 Hloop) as [Hin Hout].
    split.
    + intros Hel. apply elem_of_cons in Hel as [->|Hel]; [|by apply Hin].
      rewrite (Hout Hfresh), lookup_insert_eq. eexists. split; [done|].
      by eapply operations_for_unique.
    + intros Hnot. apply not_elem_of_cons in Hnot as [Hne Hnot].
      rewrite (Hout Hnot). by rewrite lookup_insert_ne.
Qed.

(** X3.  A function that a class exports as [op] for an HTTP method is the
    one a request with that [op] reaches, provided no other function of
    the class is exported under the same name for that method and the
    attribute holding it is not named read, create, update or delete
    (those are the names [api_operations] overwrites with its
    dispatcher). *)
Theorem dispatch_reaches_exported {F : Type}
    (vars vars' : gmap string (attribute F))
    (inherited available : gmap string (gmap string (function F)))
    (request : HttpRequest) (name method op : string) (f : function F) :
  vars !! name = Some (Function f) -> exports f method op ->
  (forall m, dispatch_methods !! m <> Some name) ->
  (forall name' f', vars !! name' = Some (Function f') ->
     exports f' method op -> f' = f) ->
  api_operations vars inherited = Some (vars', available) ->
  qd_get (if bool_decide (method = "POST") then POST request
          else GET request) "op" = Some op ->
  perform_api_operation available request method = Invoke f.
Proof.
  intros Hvar Hex Hname Huniq Hloop Hop. unfold api_operations in Hloop.
  destruct (api_operations_loop_complete name method op f
              (overriden_methods vars) vars inherited vars' available)
    as [Hin _]; try done.
  { apply NoDup_remove_dups. }
  destruct Hin as (operations & Hm & Ho).
  { by eapply elem_of_overriden_methods. }
  unfold perform_api_operation, OP_PARAM. by rewrite Hop, Hm, Ho.
Qed.

(** *** The operations of the anonymous handler *)

Lemma AnonNodesHandler_vars_eq :
  AnonNodesHandler_vars =
  Some {[ "__module__" := Other;
          "__doc__" := Other;
          "allowed_methods" := Other;
          "fields" := Other;
          "new" :=
            Function (mkFunction "new" (Some {[ "POST" := "new" ]}) anon_new);
          "is_registered" :=
            Function (mkFunction "is_registered"
                        (Some {[ "GET" := "is_registered" ]})
                        anon_is_registered);
          "accept" :=
            Function (mkFunction "accept" (Some {[ "POST" := "accept" ]})
                        anon_accept);
          "check_commissioning" :=
            Function (mkFunction "check_commissioning"
                        (Some {[ "POST" := "check_commissioning" ]})
                        anon_check_commissioning);
          "resource_uri" := Other ]}.
Proof. reflexivity. Qed.

(** The exported functions of [AnonNodesHandler], read off its
    attributes. *)
Lemma AnonNodesHandler_exported (vars : gmap string (attribute anon_function))
    (name method op : string) (f : function anon_function) :
  AnonNodesHandler_vars = Some vars ->
  vars !! name = Some (Function f) -> exports f method op ->
  name = op /\ f = mkFunction op (Some {[ method := op ]}) (func_body f) /\
  ((method = "POST" /\ op = "new" /\ func_body f = anon_new) \/
   (method = "POST" /\ op = "accept" /\ func_body f = anon_accept) \/
   (method = "POST" /\ op = "check_commissioning" /\
    func_body f = anon_check_commissioning) \/
   (method = "GET" /\ op = "is_registered" /\
    func_body f = anon_is_registered)).
Proof.
  rewrite AnonNodesHandler_vars_eq. intros [= <-] Hlook (exported & He & Hm).
  rewrite !lookup_insert_Some, lookup_singleton_Some in Hlook.
  destruct Hlook as
    [[_ ?]|[_ [[_ ?]|[_ [[_ ?]|[_ [[_ ?]|[_ [[<- Hf]|[_ [[<- Hf]|[_
    [[<- Hf]|[_ [[<- Hf]|[_ [_ ?]]]]]]]]]]]]]]]]]; try done;
    injection Hf as <-; simpl in He; injection He as <-;
    apply lookup_singleton_Some in Hm as [<- <-]; simpl; auto 10.
Qed.

Lemma overriden_methods_exported {F : Type}
    (vars : gmap string (attribute F)) (method : string) :
  method ∈ overriden_methods vars ->
  exists name f op, vars !! name = Some (Function f) /\ exports f method op.
Proof.
  unfold overriden_methods. rewrite elem_of_remove_dups, list_elem_of_In.
  intros Hin. apply in_concat in Hin as (l & Hl & Hm).
  apply in_map_iff in Hl as ([name thing] & <- & Hitem).
  apply list_elem_of_In, elem_of_map_to_list in Hitem.
  apply list_elem_of_In in Hm. cbn [snd] in Hm.
  destruct thing as [f| |]; simpl in Hm;
    try (by apply elem_of_nil in Hm).
  destruct (func_api_exported f) as [exported|] eqn:Ee;
    [|by apply elem_of_nil in Hm].
  apply list_elem_of_fmap in Hm as ([m op] & -> & Hm).
  apply elem_of_map_to_list in Hm.
  exists name, f, op. split; [done|]. by exists exported.
Qed.

Lemma api_operations_loop_is_Some {F : Type} (methods : list string) :
  forall cls : gmap string (attribute F)
               * gmap string (gmap string (function F)),
  (forall m, m ∈ methods -> is_Some (dispatch_methods !! m)) ->
  is_Some (api_operations_loop methods cls).
Proof.
  induction methods as [|m rest IH]; intros cls Hall; [by eexists|].
  cbn [api_operations_loop]. unfold api_operations_step.
  destruct (Hall m) as [d ->]; [by left|].
  apply IH. intros m' Hm'. apply Hall. by right.
Qed.

Lemma api_operations_loop_dispatcher {F : Type} (methods : list string) :
  forall (vars vars' : gmap string (attribute F))
         (available available' : gmap string (gmap string (function F)))
         (d : string),
  api_operations_loop methods (vars, available) = Some (vars', available') ->
  (vars !! d = Some Dispatcher \/
   exists m, m ∈ methods /\ dispatch_methods !! m = Some d) ->
  vars' !! d = Some Dispatcher.
Proof.
  induction methods as [|m0 rest IH];
    intros vars vars' available available' d Hloop Hd.
  - injection Hloop as <- <-. destruct Hd as [?|(m & Hm & _)]; [done|].
    by apply elem_of_nil in Hm.
  - cbn [api_operations_loop] in Hloop. unfold api_operations_step in Hloop.
    cbn [fst snd] in Hloop.
    destruct (dispatch_methods !! m0) as [d0|] eqn:E0; [|done].
    eapply IH; [exact Hloop|].
    destruct Hd as [Hd|(m & Hm & Hdm)].
    + left. destruct (decide (d0 = d)) as [->|Hne];
        [by rewrite lookup_insert_eq|by rewrite lookup_insert_ne].
    + apply elem_of_cons in Hm as [->|Hm].
      * left. rewrite E0 in Hdm. injection Hdm as ->.
        by rewrite lookup_insert_eq.
      * right. by exists m.
Qed.

Lemma api_operations_loop_untouched {F : Type} (methods : list string) :
  forall (vars vars' : gmap string (attribute F))
         (available available' : gmap string (gmap string (function F)))
         (name : string),
  api_operations_loop methods (vars, available) = Some (vars', available') ->
  (forall m, m ∈ methods -> dispatch_methods !! m <> Some name) ->
  vars' !! name = vars !! name.
Proof.
  induction methods as [|m0 rest IH];
    intros vars vars' available available' name Hloop Hname.
  - by injection Hloop as <- <-.
  - cbn [api_operations_loop] in Hloop. unfold api_operations_step in Hloop.
    cbn [fst snd] in Hloop.
    destruct (dispatch_methods !! m0) as [d0|] eqn:E0; [|done].
    rewrite (IH _ _ _ _ name Hloop) by (intros m Hm; apply Hname; by right).
    apply lookup_insert_ne. intros ->. apply (Hname m0); [by left|done].
Qed.

(** X5.  [api_operations] succeeds on a class whose functions are
    exported for HTTP methods that [dispatch_methods] knows.  For every
    such method it installs the dispatcher under the name piston calls
    (read, create, update, delete), whatever the class had defined under
    that name; every attribute under another name is left as it was. *)
Theorem api_operations_installs_dispatchers {F : Type}
    (vars : gmap string (attribute F))
    (inherited : gmap string (gmap string (function F))) :
  (forall name f method op,
     vars !! name = Some (Function f) -> exports f method op ->
     is_Some (dispatch_methods !! method)) ->
  exists vars' available,
    api_operations vars inherited = Some (vars', available) /\
    (forall name f method op method_name,
       vars !! name = Some (Function f) -> exports f method op ->
       dispatch_methods !! method = Some method_name ->
       vars' !! method_name = Some Dispatcher) /\
    (forall name,
       (forall name' f method op,
          vars !! name' = Some (Function f) -> exports f method op ->
          dispatch_methods !! method <> Some name) ->
       vars' !! name = vars !! name).
Proof.
  intros Hvalid. unfold api_operations.
  destruct (api_operations_loop_is_Some (overriden_methods vars)
              (vars, inherited)) as [[vars' available] E].
  { intros m Hm. apply overriden_methods_exported in Hm
      as (name & f & op & Hvar & Hex). by eapply Hvalid. }
  exists vars', available. split; [done|]. split.
  - intros name f method op d Hvar Hex Hd.
    eapply api_operations_loop_dispatcher; [exact E|]. right.
    exists method. split; [|done]. by eapply elem_of_overriden_methods.
  - intros name Hname.
    eapply api_operations_loop_untouched; [exact E|].
    intros m Hm. apply overriden_methods_exported in Hm
      as (name' & f & op & Hvar & Hex). by eapply Hname.
Qed.

Lemma anonymous_operations_of_vars (vars : gmap string (attribute anon_function)) :
  AnonNodesHandler_vars = Some vars ->
  match api_operations vars ∅ with
  | None => False
  | Some (vars', available) =>
      (forall request method f,
         perform_api_operation available request method = Invoke f ->
         exists op,
           qd_get (if bool_decide (method = "POST") then POST request
                   else GET request) "op" = Some op /\
           ((method = "POST" /\ op = "new" /\ func_body f = anon_new) \/
            (method = "POST" /\ op = "accept" /\ func_body f = anon_accept) \/
            (method = "POST" /\ op = "check_commissioning" /\
             func_body f = anon_check_commissioning) \/
            (method = "GET" /\ op = "is_registered" /\
             func_body f = anon_is_registered))) /\
      (forall request method op body,
         (method = "POST" /\ op = "new" /\ body = anon_new) \/
         (method = "POST" /\ op = "accept" /\ body = anon_accept) \/
         (method = "POST" /\ op = "check_commissioning" /\
          body = anon_check_commissioning) \/
         (method = "GET" /\ op = "is_registered" /\
          body = anon_is_registered) ->
         qd_get (if bool_decide (method = "POST") then POST request
                 else GET request) "op" = Some op ->
         perform_api_operation available request method =
           Invoke (mkFunction op (Some {[ method := op ]}) body)) /\
      vars' !! "read" = Some Dispatcher /\
      vars' !! "create" = Some Dispatcher
  end.
Proof.
  intros Ev.
  assert (Hvalid : forall name f method op,
            vars !! name = Some (Function f) -> exports f method op ->
            is_Some (dispatch_methods !! method)).
  { intros name f method op Hvar Hex.
    destruct (AnonNodesHandler_exported vars name method op f Ev Hvar Hex)
      as (_ & _ & [(-> & _)|[(-> & _)|[(-> & _)|(-> & _)]]]); by eexists. }
  assert (Hnew : vars !! "new" =
                 Some (Function (mkFunction "new" (Some {[ "POST" := "new" ]})
                                            anon_new))).
  { rewrite AnonNodesHandler_vars_eq in Ev. by injection Ev as <-. }
  assert (Hreg : vars !! "is_registered" =
                 Some (Function (mkFunction "is_registered"
                                   (Some {[ "GET" := "is_registered" ]})
                                   anon_is_registered))).
  { rewrite AnonNodesHandler_vars_eq in Ev. by injection Ev as <-. }
  unfold api_operations.
  destruct (api_operations_loop_is_Some (overriden_methods vars) (vars, ∅))
    as [[vars' available] E].
  { intros m Hm. apply overriden_methods_exported in Hm
      as (name & f & op & Hvar & Hex). by eapply Hvalid. }
  rewrite E. split; [|split; [|split]].
  - intros request method f Hrun.
    unfold perform_api_operation, OP_PARAM in Hrun.
    destruct (qd_get _ "op") as [op|]; [|done].
    destruct (available !! method) as [operations|] eqn:Em; [|done].
    destruct (operations !! op) as [g|] eqn:Eo; [|done].
    injection Hrun as ->. exists op. split; [done|].
    destruct (api_operations_loop_sound vars ∅ _ _ _ _ _
                (fun _ _ H => H)
                (fun m ops o h Hm Ho => or_intror (ex_intro _ ops (conj Hm Ho)))
                E method operations op f Em Eo)
      as [(name & Hvar & Hex)|(ops & Hm & _)]; [|by rewrite lookup_empty in Hm].
    by destruct (AnonNodesHandler_exported vars name method op f Ev Hvar Hex)
      as (_ & _ & ?).
  - intros request method op body Hcase Hop.
    set (f := mkFunction op (Some {[ method := op ]}) body).
    assert (Hvar : vars !! op = Some (Function f)).
    { rewrite AnonNodesHandler_vars_eq in Ev. injection Ev as <-.
      by destruct Hcase as [(-> & -> & ->)|[(-> & -> & ->)|
                           [(-> & -> & ->)|(-> & -> & ->)]]]. }
    assert (Hex : exports f method op).
    { eexists. split; [done|]. by rewrite lookup_singleton_eq. }
    destruct (api_operations_loop_complete op method op f
                (overriden_methods vars) vars ∅ vars' available)
      as [Hin _]; try done.
    + apply NoDup_remove_dups.
    + intros m Hm. apply dispatch_methods_lookup in Hm.
      destruct Hcase as [(_ & -> & _)|[(_ & -> & _)|
                        [(_ & -> & _)|(_ & -> & _)]]];
        by destruct Hm as [[_ ?]|[[_ ?]|[[_ ?]|[_ ?]]]].
    + intros name' f' Hvar' Hex'.
      destruct (AnonNodesHandler_exported vars name' method op f' Ev Hvar' Hex')
        as (_ & -> & Hbody).
      unfold f. f_equal.
      destruct Hcase as [(-> & -> & ->)|[(-> & -> & ->)|
                        [(-> & -> & ->)|(-> & -> & ->)]]];
        destruct Hbody as [(? & ? & ?)|[(? & ? & ?)|
                          [(? & ? & ?)|(? & ? & ?)]]]; done.
    + destruct Hin as (operations & Hm & Ho).
      { by eapply elem_of_overriden_methods. }
      unfold perform_api_operation, OP_PARAM. by rewrite Hop, Hm, Ho.
  - eapply api_operations_loop_dispatcher; [exact E|]. right.
    exists "GET". split; [|done].
    eapply elem_of_overriden_methods; [exact Hreg|].
    eexists. split; [done|]. by rewrite lookup_singleton_eq.
  - eapply api_operations_loop_dispatcher; [exact E|]. right.
    exists "POST". split; [|done].
    eapply elem_of_overriden_methods; [exact Hnew|].
    eexists. split; [done|]. by rewrite lookup_singleton_eq.
Qed.

(** X4.  What an anonymous client can reach.  The class
    [AnonNodesHandler], once [api_operations] has been applied to it,
    dispatches a POST to [new], [accept] or [check_commissioning] and a
    GET to [is_registered], each under its own name as [op], and to
    nothing else; each of the four is reachable.  Both [read] and
    [create] of the class are the dispatcher. *)
Theorem anonymous_operations :
  match AnonNodesHandler_class with
  | None => False
  | Some (vars', available) =>
      (forall request method f,
         perform_api_operation available request method = Invoke f ->
         exists op,
           qd_get (if bool_decide (method = "POST") then POST request
                   else GET request) "op" = Some op /\
           ((method = "POST" /\ op = "new" /\ func_body f = anon_new) \/
            (method = "POST" /\ op = "accept" /\ func_body f = anon_accept) \/
            (method = "POST" /\ op = "check_commissioning" /\
             func_body f = anon_check_commissioning) \/
            (method = "GET" /\ op = "is_registered" /\
             func_body f = anon_is_registered))) /\
      (forall request method op body,
         (method = "POST" /\ op = "new" /\ body = anon_new) \/
         (method = "POST" /\ op = "accept" /\ body = anon_accept) \/
         (method = "POST" /\ op = "check_commissioning" /\
          body = anon_check_commissioning) \/
         (method = "GET" /\ op = "is_registered" /\
          body = anon_is_registered) ->
         qd_get (if bool_decide (method = "POST") then POST request
                 else GET request) "op" = Some op ->
         perform_api_operation available request method =
           Invoke (mkFunction op (Some {[ method := op ]}) body)) /\
      vars' !! "read" = Some Dispatcher /\
      vars' !! "create" = Some Dispatcher
  end.
Proof.
  unfold AnonNodesHandler_class. rewrite AnonNodesHandler_vars_eq.
  cbn [mbind option_bind].
  apply anonymous_operations_of_vars, AnonNodesHandler_vars_eq.
Qed.

Lemma AnonNodesHandler_built (vars : gmap string (attribute anon_function)) :
  AnonNodesHandler_vars = Some vars ->
  exists vars' available,
    api_operations vars ∅ = Some (vars', available) /\
    forall request method op body,
      (method = "POST" /\ op = "new" /\ body = anon_new) \/
      (method = "POST" /\ op = "accept" /\ body = anon_accept) \/
      (method = "POST" /\ op = "check_commissioning" /\
       body = anon_check_commissioning) \/
      (method = "GET" /\ op = "is_registered" /\
       body = anon_is_registered) ->
      qd_get (if bool_decide (method = "POST") then POST request
              else GET request) "op" = Some op ->
      perform_api_operation available request method =
        Invoke (mkFunction op (Some {[ method := op ]}) body).
Proof.
  intros Ev. pose proof (anonymous_operations_of_vars vars Ev) as H.
  destruct (api_operations vars ∅) as [[vars' available]|]; [|done].
  destruct H as (_ & Hreach & _). by exists vars', available.
Qed.

(** X2 on [AnonNodesHandler]: a POST with [op=accept] reaches [accept],
    which the class exports under that name. *)
Lemma dispatch_only_exported_witness :
  let request :=
    Sample.request_of Sample.alice ∅ {[ "op" := ["accept"] ]} None in
  let f := mkFunction "accept" (Some {[ "POST" := "accept" ]}) anon_accept in
  let vars := default ∅ AnonNodesHandler_vars in
  exists vars' available,
    api_operations vars ∅ = Some (vars', available) /\
    perform_api_operation available request "POST" = Invoke f /\
    exists op, qd_get (POST request) "op" = Some op /\
      ((exists name, vars !! name = Some (Function f) /\ exports f "POST" op)
       \/ (exists inherited_ops,
             (∅ : gmap string (gmap string (function anon_function)))
               !! "POST" = Some inherited_ops /\
             inherited_ops !! op = Some f)).
Proof.
  intros request f vars.
  destruct (AnonNodesHandler_built vars eq_refl)
    as (vars' & available & E & Hreach).
  assert (Hrun : perform_api_operation available request "POST" = Invoke f).
  { apply (Hreach request "POST" "accept" anon_accept); [tauto|reflexivity]. }
  exists vars', available. split; [exact E|]. split; [exact Hrun|].
  exact (dispatch_only_exported vars vars' ∅ available request "POST" f
           E Hrun).
Defined.

(** X3 on [AnonNodesHandler]: [check_commissioning] is reached by a POST
    with that [op]. *)
Lemma dispatch_reaches_exported_witness :
  let request :=
    Sample.request_of Sample.alice ∅ {[ "op" := ["check_commissioning"] ]}
                      None in
  let f := mkFunction "check_commissioning"
             (Some {[ "POST" := "check_commissioning" ]})
             anon_check_commissioning in
  let vars := default ∅ AnonNodesHandler_vars in
  exists vars' available,
    api_operations vars ∅ = Some (vars', available) /\
    vars !! "check_commissioning" = Some (Function f) /\
    perform_api_operation available request "POST" = Invoke f.
Proof.
  intros request f vars.
  destruct (AnonNodesHandler_built vars eq_refl)
    as (vars' & available & E & _).
  exists vars', available. split; [exact E|]. split; [reflexivity|].
  assert (Hex : exports f "POST" "check_commissioning").
  { eexists. split; [reflexivity|]. reflexivity. }
  apply (dispatch_reaches_exported vars vars' ∅ available request
           "check_commissioning" "POST" "check_commissioning" f
           eq_refl Hex).
  - intros m Hm. apply dispatch_methods_lookup in Hm.
    by destruct Hm as [[_ ?]|[[_ ?]|[[_ ?]|[_ ?]]]].
  - intros name' f' Hvar' Hex'.
    destruct (AnonNodesHandler_exported vars name' "POST"
                "check_commissioning" f' eq_refl Hvar' Hex')
      as (_ & -> & Hbody).
    unfold f. f_equal.
    by destruct Hbody as [(? & ? & ?)|[(? & ? & ?)|
                         [(? & ? & ?)|(? & ? & ?)]]].
  - exact E.
  - reflexivity.
Defined.

(** X5 on [AnonNodesHandler]: every function of the class is exported for
    GET or POST, so the class is built and [read] and [create] become the
    dispatcher. *)
Lemma api_operations_installs_dispatchers_witness :
  let vars := default ∅ AnonNodesHandler_vars in
  exists vars' available,
    api_operations vars ∅ = Some (vars', available) /\
    vars' !! "read" = Some Dispatcher /\
    vars' !! "create" = Some Dispatcher /\
    vars' !! "fields" = Some Other.
Proof.
  intros vars.
  destruct (api_operations_installs_dispatchers vars ∅)
    as (vars' & available & E & Hdisp & Hkeep).
  { intros name f method op Hvar Hex.
    destruct (AnonNodesHandler_exported vars name method op f eq_refl Hvar Hex)
      as (_ & _ & [(-> & _)|[(-> & _)|[(-> & _)|(-> & _)]]]); by eexists. }
  exists vars', available. split; [exact E|]. split; [|split].
  - apply (Hdisp "is_registered"
             (mkFunction "is_registered" (Some {[ "GET" := "is_registered" ]})
                         anon_is_registered) "GET" "is_registered");
      [reflexivity| |reflexivity].
    eexists. split; reflexivity.
  - apply (Hdisp "new" (mkFunction "new" (Some {[ "POST" := "new" ]}) anon_new)
             "POST" "new"); [reflexivity| |reflexivity].
    eexists. split; reflexivity.
  - rewrite (Hkeep "fields"); [reflexivity|].
    intros name' f method op Hvar Hex Hd.
    apply dispatch_methods_lookup in Hd.
    by destruct Hd as [[_ ?]|[[_ ?]|[[_ ?]|[_ ?]]]].
Defined.

(** ** Further properties: the OAuth key of a request *)

Lemma string_app_nil_l (s : string) : "" +:+ s = s.
Proof. reflexivity. Qed.

Lemma string_app_cons (a : ascii) (s t : string) :
  String a s +:+ t = String a (s +:+ t).
Proof. reflexivity. Qed.

Lemma string_app_nil_r (s : string) : s +:+ "" = s.
Proof.
  induction s as [|a s IH]; [done|]. by rewrite string_app_cons, IH.
Qed.

Lemma string_app_assoc (s t u : string) : (s +:+ t) +:+ u = s +:+ (t +:+ u).
Proof.
  induction s as [|a s IH]; [done|]. by rewrite !string_app_cons, IH.
Qed.

Lemma rev_app_rev_app (s r t : string) :
  String.rev_app (String.rev_app s r) t = String.rev_app r (s +:+ t).
Proof.
  revert r t. induction s as [|a s IH]; intros r t; [done|].
  cbn [String.rev_app]. by rewrite IH.
Qed.

Lemma rev_app_app (s t r : string) :
  String.rev_app (s +:+ t) r = String.rev_app t (String.rev_app s r).
Proof.
  revert r. induction s as [|a s IH]; intros r; [done|].
  rewrite string_app_cons. cbn [String.rev_app]. by rewrite IH.
Qed.

Lemma string_rev_involutive (s : string) : String.rev (String.rev s) = s.
Proof.
  unfold String.rev. rewrite rev_app_rev_app. cbn [String.rev_app].
  apply string_app_nil_r.
Qed.

Lemma string_rev_snoc (s : string) (a : ascii) :
  String.rev (s +:+ String a "") = String a (String.rev s).
Proof. unfold String.rev. by rewrite rev_app_app. Qed.

Lemma string_snoc_inv (s : string) :
  s = "" \/ exists t b, s = t +:+ String b "".
Proof.
  induction s as [|a s IH]; [by left|]. right.
  destruct IH as [->|(t & b & ->)].
  - by exists "", a.
  - by exists (String a t), b.
Qed.

Lemma lstrip_other (c a : ascii) (s : string) :
  a <> c -> lstrip c (String a s) = String a s.
Proof. intros Hne. cbn [lstrip]. by rewrite bool_decide_false. Qed.

Lemma lstrip_same (c : ascii) (s : string) :
  lstrip c (String c s) = lstrip c s.
Proof. cbn [lstrip]. by rewrite bool_decide_true. Qed.

(** What is left of [lstrip] does not start with the character. *)
Lemma lstrip_head (c : ascii) (s t : string) : lstrip c s <> String c t.
Proof.
  induction s as [|a s IH]; [done|]. cbn [lstrip].
  case_bool_decide as E; [done|]. congruence.
Qed.

(** [lstrip] keeps a suffix of its argument. *)
Lemma lstrip_suffix (c : ascii) (s : string) :
  exists p, s = p +:+ lstrip c s /\ string_forallb (fun a => bool_decide (a = c)) p = true.
Proof.
  induction s as [|a s (p & Hp & Hall)]; [by exists ""|]. cbn [lstrip].
  case_bool_decide as E.
  - subst a. exists (String c p). rewrite string_app_cons, <- Hp.
    split; [done|]. simpl. by rewrite bool_decide_true.
  - by exists "".
Qed.

Lemma rstrip_snoc_same (c : ascii) (s : string) :
  rstrip c (s +:+ String c "") = rstrip c s.
Proof. unfold rstrip. by rewrite string_rev_snoc, lstrip_same. Qed.

Lemma rstrip_snoc_other (c a : ascii) (s : string) :
  a <> c -> rstrip c (s +:+ String a "") = s +:+ String a "".
Proof.
  intros Hne. unfold rstrip.
  rewrite string_rev_snoc, lstrip_other by done.
  by rewrite <- string_rev_snoc, string_rev_involutive.
Qed.

(** A string that does not end with the character is left alone. *)
Lemma rstrip_id (c : ascii) (s : string) :
  (forall t, s <> t +:+ String c "") -> rstrip c s = s.
Proof.
  intros Hend. destruct (string_snoc_inv s) as [->|(t & b & ->)]; [done|].
  apply rstrip_snoc_other. intros ->. by apply (Hend t).
Qed.

(** What is left of [rstrip] does not end with the character. *)
Lemma rstrip_last (c : ascii) (s t : string) :
  rstrip c s <> t +:+ String c "".
Proof.
  unfold rstrip. intros H. apply (f_equal String.rev) in H.
  rewrite string_rev_involutive, string_rev_snoc in H.
  by apply lstrip_head in H.
Qed.

Lemma rev_app_eq (s r : string) :
  String.rev_app s r = String.rev s +:+ r.
Proof.
  revert r. induction s as [|a s IH]; intros r; [done|].
  unfold String.rev. cbn [String.rev_app].
  rewrite (IH (String a r)), (IH (String a "")).
  by rewrite string_app_assoc.
Qed.

Lemma string_rev_app (s t : string) :
  String.rev (s +:+ t) = String.rev t +:+ String.rev s.
Proof. unfold String.rev at 1. by rewrite rev_app_app, rev_app_eq. Qed.

Lemma string_forallb_app (p : ascii -> bool) (s t : string) :
  string_forallb p (s +:+ t) = string_forallb p s && string_forallb p t.
Proof.
  induction s as [|a s IH]; [done|].
  rewrite string_app_cons. simpl. by rewrite IH, andb_assoc.
Qed.

Lemma string_forallb_rev (p : ascii -> bool) (s : string) :
  string_forallb p (String.rev s) = string_forallb p s.
Proof.
  induction s as [|a s IH]; [done|].
  change (String a s) with (String a "" +:+ s) at 1.
  rewrite string_rev_app, string_forallb_app, IH. simpl.
  by rewrite andb_true_r, andb_comm.
Qed.

(** [rstrip] keeps a prefix of its argument: what it drops is made of the
    character only. *)
Lemma rstrip_prefix (c : ascii) (s : string) :
  exists q, s = rstrip c s +:+ q /\
            string_forallb (fun a => bool_decide (a = c)) q = true.
Proof.
  unfold rstrip. destruct (lstrip_suffix c (String.rev s)) as (p & Hp & Hall).
  exists (String.rev p). split.
  - rewrite <- string_rev_app, <- Hp. by rewrite string_rev_involutive.
  - by rewrite string_forallb_rev.
Qed.

Lemma strip_last (c : ascii) (s t : string) : strip c s <> t +:+ String c "".
Proof. apply rstrip_last. Qed.

Lemma strip_head (c : ascii) (s t : string) : strip c s <> String c t.
Proof.
  unfold strip. intros H.
  destruct (rstrip_prefix c (lstrip c s)) as (q & Hq & _).
  rewrite H, string_app_cons in Hq. by apply lstrip_head in Hq.
Qed.

(** [split()]: a word followed by a blank and more text. *)
Lemma words_go_app (cur : option string) (a b : string) :
  String.words_go cur (a +:+ String " " b)
  = (String.words_go cur a ++ String.words_go None b)%list.
Proof.
  revert cur. induction a as [|c a IH]; intros cur; [done|].
  rewrite string_app_cons. cbn [String.words_go].
  destruct (Ascii.is_space c); [|apply IH].
  by rewrite IH, app_assoc.
Qed.

Lemma words_go_no_space (r s : string) :
  string_forallb (fun c => negb (Ascii.is_space c)) s = true ->
  String.words_go (Some r) s = [String.rev (String.rev_app s r)].
Proof.
  revert r. induction s as [|c s IH]; intros r Hs; [done|].
  simpl in Hs. apply andb_true_iff in Hs as [Hc Hs].
  apply negb_true_iff in Hc. cbn [String.words_go]. rewrite Hc.
  cbn [from_option String.rev_app]. by apply IH.
Qed.

(** [split()] of one word is that word. *)
Lemma words_word (a : ascii) (s : string) :
  string_forallb (fun c => negb (Ascii.is_space c)) (String a s) = true ->
  String.words (String a s) = [String a s].
Proof.
  intros Hs. simpl in Hs. apply andb_true_iff in Hs as [Hc Hs].
  apply negb_true_iff in Hc. unfold String.words.
  cbn [String.words_go]. rewrite Hc. cbn [from_option].
  rewrite words_go_no_space by done. f_equal.
  unfold String.rev. rewrite rev_app_rev_app. cbn [String.rev_app].
  by rewrite string_app_nil_r.
Qed.

Lemma split_once_Some (sep : ascii) (s before after : string) :
  split_once sep s = Some (before, after) ->
  s = before +:+ String sep after.
Proof.
  revert before. induction s as [|c s IH]; intros before; [done|].
  cbn [split_once]. case_bool_decide as E.
  - intros [= <- <-]. by subst c.
  - destruct (split_once sep s) as [[b a]|]; [|done].
    intros [= <- <-]. rewrite string_app_cons. f_equal. by apply IH.
Qed.

(** An entry of the form [oauth_token=value]. *)
Lemma split_once_oauth_token (entry value : string) :
  split_once "=" entry = Some ("oauth_token", value) <->
  entry = "oauth_token=" +:+ value.
Proof.
  split; [|by intros ->].
  intros H. by apply split_once_Some in H.
Qed.

Lemma is_ascii_app (s t : string) :
  is_ascii (s +:+ t) = is_ascii s && is_ascii t.
Proof.
  induction s as [|a s IH]; [done|].
  rewrite string_app_cons. cbn [is_ascii]. by rewrite IH, andb_assoc.
Qed.

Lemma first_oauth_token_hit (value : string) (rest : list string) :
  is_ascii value = true ->
  first_oauth_token (("oauth_token=" +:+ value) :: rest)
  = Return (Some (strip double_quote (rstrip "," value))).
Proof.
  intros Hvalue.
  assert (Hentry : is_ascii ("oauth_token=" +:+ value) = true)
    by exact Hvalue.
  cbn [first_oauth_token]. by rewrite Hentry.
Qed.

Lemma first_oauth_token_miss (entry : string) (rest : list string) :
  is_ascii entry = true ->
  (forall value, entry <> "oauth_token=" +:+ value) ->
  first_oauth_token (entry :: rest) = first_oauth_token rest.
Proof.
  intros Hascii Hmiss. cbn [first_oauth_token]. rewrite Hascii.
  destruct (split_once "=" entry) as [[key value]|] eqn:E; [|done].
  case_bool_decide as Hk; [|done]. subst key.
  apply split_once_oauth_token in E. by apply Hmiss in E.
Qed.

Lemma first_oauth_token_skip (before rest : list string) :
  (forall entry, entry ∈ before ->
     is_ascii entry = true /\
     forall value, entry <> "oauth_token=" +:+ value) ->
  first_oauth_token (before ++ rest)%list = first_oauth_token rest.
Proof.
  induction before as [|e before IH]; intros Hmiss; [done|].
  cbn [app]. destruct (Hmiss e) as [Hascii He]; [by left|].
  rewrite first_oauth_token_miss by done.
  apply IH. intros entry Hin. apply Hmiss. by right.
Qed.

Lemma first_oauth_token_bad (entry : string) (rest : list string) :
  is_ascii entry = false ->
  first_oauth_token (entry :: rest) = Raise UnicodeDecodeError.
Proof. intros Hbad. cbn [first_oauth_token]. by rewrite Hbad. Qed.

(** What the loop has seen when it ends, by the way it ends. *)
Lemma first_oauth_token_inv (entries : list string) :
  match first_oauth_token entries with
  | Return None =>
      forall entry, entry ∈ entries ->
        is_ascii entry = true /\
        forall value, entry <> "oauth_token=" +:+ value
  | Return (Some key) =>
      exists before value after,
        entries = (before ++ ("oauth_token=" +:+ value) :: after)%list /\
        (forall entry, entry ∈ before ->
           is_ascii entry = true /\
           forall value', entry <> "oauth_token=" +:+ value') /\
        is_ascii value = true /\
        key = strip double_quote (rstrip "," value)
  | Raise e =>
      e = UnicodeDecodeError /\
      exists before bad after,
        entries = (before ++ bad :: after)%list /\
        (forall entry, entry ∈ before ->
           is_ascii entry = true /\
           forall value', entry <> "oauth_token=" +:+ value') /\
        is_ascii bad = false
  end.
Proof.
  induction entries as [|e entries IH].
  { intros entry Hin. by apply elem_of_nil in Hin. }
  cbn [first_oauth_token]. destruct (is_ascii e) eqn:Hascii.
  - assert (Hstep : (forall value, e <> "oauth_token=" +:+ value) ->
              forall entry, entry ∈ e :: entries ->
                (entry ∈ entries ->
                 is_ascii entry = true /\
                 forall value, entry <> "oauth_token=" +:+ value) ->
                is_ascii entry = true /\
                forall value, entry <> "oauth_token=" +:+ value).
    { intros He entry Hin Hrest.
      apply elem_of_cons in Hin as [->|Hin]; [done|by apply Hrest]. }
    assert (Hmiss : (forall value, e <> "oauth_token=" +:+ value) ->
              match first_oauth_token entries with
              | Return None =>
                  forall entry, entry ∈ e :: entries ->
                    is_ascii entry = true /\
                    forall value, entry <> "oauth_token=" +:+ value
              | Return (Some key) =>
                  exists before value after,
                    e :: entries
                    = (before ++ ("oauth_token=" +:+ value) :: after)%list /\
                    (forall entry, entry ∈ before ->
                       is_ascii entry = true /\
                       forall value', entry <> "oauth_token=" +:+ value') /\
                    is_ascii value = true /\
                    key = strip double_quote (rstrip "," value)
              | Raise err =>
                  err = UnicodeDecodeError /\
                  exists before bad after,
                    e :: entries = (before ++ bad :: after)%list /\
                    (forall entry, entry ∈ before ->
                       is_ascii entry = true /\
                       forall value', entry <> "oauth_token=" +:+ value') /\
                    is_ascii bad = false
              end).
    { intros He. destruct (first_oauth_token entries) as [[key|]|err].
      - destruct IH as (before & v & after & -> & Hbefore & Hv & ->).
        exists (e :: before), v, after. split; [done|].
        split; [|done]. intros entry Hin.
        apply elem_of_cons in Hin as [->|Hin]; [done|by apply Hbefore].
      - intros entry Hin. apply (Hstep He entry Hin). apply IH.
      - destruct IH as (-> & before & bad & after & -> & Hbefore & Hbad).
        split; [done|]. exists (e :: before), bad, after. split; [done|].
        split; [|done]. intros entry Hin.
        apply elem_of_cons in Hin as [->|Hin]; [done|by apply Hbefore]. }
    destruct (split_once "=" e) as [[k value]|] eqn:E.
    + case_bool_decide as Hk.
      * subst k. apply split_once_oauth_token in E. subst e.
        exists [], value, entries. split; [done|]. split.
        -- intros entry Hin. by apply elem_of_nil in Hin.
        -- split; [|done]. exact Hascii.
      * apply Hmiss. intros value' ->.
        rewrite (proj2 (split_once_oauth_token _ _) eq_refl) in E.
        by simplify_eq.
    + apply Hmiss. intros value' ->.
      by rewrite (proj2 (split_once_oauth_token _ _) eq_refl) in E.
  - split; [done|]. exists [], e, entries. split; [done|]. split; [|done].
    intros entry Hin. by apply elem_of_nil in Hin.
Qed.

(** X6.  [extract_oauth_key_from_auth_header] looks at the
    white-space-separated entries of the header in order, and only as far
    as the first entry that decides.  An entry is passed over when it
    decodes as ASCII and has not the form [oauth_token=value].  The
    parser returns nothing exactly when every entry is passed over; it
    returns a key exactly when the first entry not passed over is an
    [oauth_token] entry, the key being its value with the trailing commas
    removed and then the double quotes at both ends; it raises, and then
    [UnicodeDecodeError], exactly when the first entry not passed over
    holds a byte above 127. *)
Theorem extract_oauth_key_first_entry (auth_data : string) :
  (extract_oauth_key_from_auth_header auth_data = Return None <->
   forall entry, entry ∈ String.words auth_data ->
     is_ascii entry = true /\
     forall value, entry <> "oauth_token=" +:+ value) /\
  (forall key,
     extract_oauth_key_from_auth_header auth_data = Return (Some key) <->
     exists before value after,
       String.words auth_data
         = (before ++ ("oauth_token=" +:+ value) :: after)%list /\
       (forall entry, entry ∈ before ->
          is_ascii entry = true /\
          forall value', entry <> "oauth_token=" +:+ value') /\
       is_ascii value = true /\
       key = strip double_quote (rstrip "," value)) /\
  (forall e,
     extract_oauth_key_from_auth_header auth_data = Raise e <->
     e = UnicodeDecodeError /\
     exists before bad after,
       String.words auth_data = (before ++ bad :: after)%list /\
       (forall entry, entry ∈ before ->
          is_ascii entry = true /\
          forall value', entry <> "oauth_token=" +:+ value') /\
       is_ascii bad = false).
Proof.
  unfold extract_oauth_key_from_auth_header.
  pose proof (first_oauth_token_inv (String.words auth_data)) as Hinv.
  assert (Hkey : forall key,
    (exists before value after,
       String.words auth_data
         = (before ++ ("oauth_token=" +:+ value) :: after)%list /\
       (forall entry, entry ∈ before ->
          is_ascii entry = true /\
          forall value', entry <> "oauth_token=" +:+ value') /\
       is_ascii value = true /\
       key = strip double_quote (rstrip "," value)) ->
    first_oauth_token (String.words auth_data) = Return (Some key)).
  { intros key (before & value & after & -> & Hbefore & Hvalue & ->).
    by rewrite first_oauth_token_skip, first_oauth_token_hit. }
  assert (Hbad : forall e,
    e = UnicodeDecodeError /\
    (exists before bad after,
       String.words auth_data = (before ++ bad :: after)%list /\
       (forall entry, entry ∈ before ->
          is_ascii entry = true /\
          forall value', entry <> "oauth_token=" +:+ value') /\
       is_ascii bad = false) ->
    first_oauth_token (String.words auth_data) = Raise e).
  { intros e (-> & before & bad & after & -> & Hbefore & Hbad).
    by rewrite first_oauth_token_skip, first_oauth_token_bad. }
  assert (Hnone :
    (forall entry, entry ∈ String.words auth_data ->
       is_ascii entry = true /\
       forall value, entry <> "oauth_token=" +:+ value) ->
    first_oauth_token (String.words auth_data) = Return None).
  { intros Hall.
    rewrite <- (app_nil_r (String.words auth_data)).
    by rewrite first_oauth_token_skip. }
  split; [|split].
  - split; [|exact Hnone].
    intros E. by rewrite E in Hinv.
  - intros key. split; [|apply Hkey].
    intros E. by rewrite E in Hinv.
  - intros e. split; [|apply Hbad].
    intros E. by rewrite E in Hinv.
Qed.

(** X7.  Round trip.  An ASCII key without white space that neither
    starts nor ends with a double quote, written into a header as
    [oauth_token="key",] after entries that are all passed over (they
    decode as ASCII and none is an [oauth_token] entry), is what
    [extract_oauth_key_from_auth_header] returns, whatever follows it:
    what follows is not even decoded.  Neither the key nor what precedes
    it holds an information separator, so that the header is cut into the
    same entries whether it arrives as a byte string or as text. *)
Theorem extract_oauth_key_round_trip (before after key : string) :
  is_ascii key = true ->
  string_forallb (fun c => negb (Ascii.is_space c)) key = true ->
  string_forallb (fun c => negb (is_separator c)) key = true ->
  string_forallb (fun c => negb (is_separator c)) before = true ->
  (forall t, key <> String double_quote t) ->
  (forall t, key <> t +:+ String double_quote "") ->
  (forall entry, entry ∈ String.words before ->
     is_ascii entry = true /\
     forall value, entry <> "oauth_token=" +:+ value) ->
  extract_oauth_key_from_auth_header
    (before +:+ " "
     +:+ ("oauth_token=" +:+ String double_quote key
          +:+ String double_quote ",")
     +:+ " " +:+ after)
  = Return (Some key).
Proof.
  intros Hascii Hkey _ _ Hhead Hlast Hbefore.
  set (value := String double_quote key +:+ String double_quote ",").
  assert (Hvalue : strip double_quote (rstrip "," value) = key).
  { unfold value.
    change (String double_quote key +:+ String double_quote ",")
      with (String double_quote (key +:+ String double_quote ",")).
    change (String double_quote ",")
      with (String double_quote "" +:+ String "," "").
    rewrite <- string_app_assoc, <- string_app_cons, rstrip_snoc_same.
    rewrite <- string_app_cons, rstrip_snoc_other by done.
    unfold strip. rewrite string_app_cons, lstrip_same.
    destruct key as [|a key'].
    - by rewrite string_app_nil_l, lstrip_same.
    - rewrite string_app_cons, lstrip_other
        by (intros ->; by apply (Hhead key')).
      rewrite <- string_app_cons, rstrip_snoc_same. by apply rstrip_id. }
  assert (Hvalue_ascii : is_ascii value = true).
  { unfold value.
    change (String double_quote key +:+ String double_quote ",")
      with (String double_quote "" +:+ key +:+ String double_quote ",").
    by rewrite !is_ascii_app, Hascii. }
  unfold extract_oauth_key_from_auth_header, String.words.
  change (before +:+ " " +:+ ("oauth_token=" +:+ value) +:+ " " +:+ after)
    with (before +:+ String " " (("oauth_token=" +:+ value)
                                 +:+ String " " after)).
  rewrite !words_go_app.
  rewrite first_oauth_token_skip by exact Hbefore.
  change (String.words_go None ("oauth_token=" +:+ value))
    with (String.words (String "o" ("auth_token=" +:+ value))).
  rewrite words_word.
  - cbn [app]. change (String "o" ("auth_token=" +:+ value))
      with ("oauth_token=" +:+ value).
    by rewrite first_oauth_token_hit, Hvalue.
  - change (String "o" ("auth_token=" +:+ value))
      with ("oauth_token=" +:+ String double_quote ""
            +:+ key +:+ String double_quote ",").
    by rewrite !string_forallb_app, Hkey.
Qed.

(** X7 on a header as a client sends it, followed by an entry that would
    not decode. *)
Lemma extract_oauth_key_round_trip_witness :
  extract_oauth_key_from_auth_header
    ("OAuth realm=maas," +:+ " "
     +:+ ("oauth_token=" +:+ String double_quote "alice-key"
          +:+ String double_quote ",")
     +:+ " " +:+ ("oauth_nonce=" +:+ String "233" ""))
  = Return (Some "alice-key").
Proof.
  apply (extract_oauth_key_round_trip "OAuth realm=maas,"
           ("oauth_nonce=" +:+ String "233" "") "alice-key").
  - reflexivity.
  - reflexivity.
  - reflexivity.
  - reflexivity.
  - intros t H. discriminate H.
  - intros t H. apply (f_equal String.rev) in H.
    rewrite string_rev_snoc in H. discriminate H.
  - intros entry Hin. vm_compute in Hin.
    apply list_elem_of_In in Hin.
    destruct Hin as [<-|[<-|[]]]; (split; [reflexivity|]);
      intros value H; discriminate H.
Defined.

(** X8.  Whatever the header, the key
    [extract_oauth_key_from_auth_header] returns neither starts nor ends
    with a double quote. *)
Theorem extract_oauth_key_unquoted (auth_data key : string) :
  extract_oauth_key_from_auth_header auth_data = Return (Some key) ->
  (forall t, key <> String double_quote t) /\
  (forall t, key <> t +:+ String double_quote "").
Proof.
  unfold extract_oauth_key_from_auth_header. intros H.
  pose proof (first_oauth_token_inv (String.words auth_data)) as Hinv.
  rewrite H in Hinv. destruct Hinv as (_ & value & _ & _ & _ & _ & ->).
  split; intros t; [apply strip_head|apply strip_last].
Qed.

(** X8 on a header whose value is quoted twice. *)
Lemma extract_oauth_key_unquoted_witness :
  let header :=
    "oauth_token=" +:+ String double_quote (String double_quote "k")
    +:+ String double_quote (String double_quote ",,") in
  extract_oauth_key_from_auth_header header = Return (Some "k") /\
  (forall t, "k" <> String double_quote t) /\
  (forall t, "k" <> t +:+ String double_quote "").
Proof.
  intros header. split; [reflexivity|].
  exact (extract_oauth_key_unquoted header "k" eq_refl).
Defined.

(** What [extract_oauth_key] raises. *)
Lemma extract_oauth_key_Raise (request : HttpRequest) (e : api_error) :
  extract_oauth_key request = Raise e ->
  (exists msg, e = Unauthorized msg) \/
  (e = UnicodeDecodeError /\
   exists header,
     HTTP_AUTHORIZATION request = Some header /\
     extract_oauth_key_from_auth_header header = Raise UnicodeDecodeError).
Proof.
  unfold extract_oauth_key.
  destruct (HTTP_AUTHORIZATION request) as [header|];
    [|intros [= <-]; left; by eexists].
  unfold extract_oauth_key_from_auth_header.
  pose proof (first_oauth_token_inv (String.words header)) as Hinv.
  destruct (first_oauth_token (String.words header)) as [[key|]|err] eqn:E;
    [done|intros [= <-]; left; by eexists|].
  destruct Hinv as [-> _]. intros [= <-]. right. split; [done|].
  by exists header.
Qed.

(** ** Further properties: access of a node-group worker *)

Section NodeGroupAccess.

Variable repr : string -> string.

(** X9.  [check_nodegroup_access] lets a request through exactly when its
    [Authorization] header yields the API key of the node group.  A
    missing header or token, reported as [Unauthorized] by
    [extract_oauth_key], comes out as [PermissionDenied] with the same
    message.  [Unauthorized] is all the handler catches: a header that
    does not decode comes out as the [UnicodeDecodeError] of the parser,
    and that is the only error besides [PermissionDenied]. *)
Theorem check_nodegroup_access_key (request : HttpRequest)
    (nodegroup : NodeGroup) :
  (check_nodegroup_access repr request nodegroup = Return tt <->
   exists header,
     HTTP_AUTHORIZATION request = Some header /\
     extract_oauth_key_from_auth_header header
       = Return (Some (api_key nodegroup))) /\
  (forall e, check_nodegroup_access repr request nodegroup = Raise e ->
     (exists msg, e = PermissionDenied msg) \/
     (e = UnicodeDecodeError /\
      exists header,
        HTTP_AUTHORIZATION request = Some header /\
        extract_oauth_key_from_auth_header header
          = Raise UnicodeDecodeError)) /\
  (forall msg, extract_oauth_key request = Raise (Unauthorized msg) ->
     check_nodegroup_access repr request nodegroup
       = Raise (PermissionDenied msg)) /\
  (forall header,
     HTTP_AUTHORIZATION request = Some header ->
     extract_oauth_key_from_auth_header header = Raise UnicodeDecodeError ->
     check_nodegroup_access repr request nodegroup
       = Raise UnicodeDecodeError).
Proof.
  split; [|split; [|split]].
  - unfold check_nodegroup_access, extract_oauth_key.
    destruct (HTTP_AUTHORIZATION request) as [header|].
    + destruct (extract_oauth_key_from_auth_header header)
        as [[key|]|err] eqn:E.
      * case_bool_decide as Hk.
        -- split; [done|]. intros (h & Hh & He). injection Hh as <-.
           rewrite E in He. by injection He as ->.
        -- subst key. split; [|done]. intros _. by exists header.
      * split; [done|]. intros (h & Hh & He). injection Hh as <-.
        by rewrite E in He.
      * split; [by destruct err|]. intros (h & Hh & He).
        injection Hh as <-. by rewrite E in He.
    + split; [done|]. by intros (h & ? & _).
  - intros e. unfold check_nodegroup_access.
    destruct (extract_oauth_key request) as [key|err] eqn:E.
    + case_bool_decide; [|done]. intros [= <-]. left. by eexists.
    + apply extract_oauth_key_Raise in E as [[msg ->]|[-> Hheader]].
      * intros [= <-]. left. by eexists.
      * intros [= <-]. by right.
  - intros msg E. unfold check_nodegroup_access. by rewrite E.
  - intros header Hheader E.
    unfold check_nodegroup_access, extract_oauth_key.
    by rewrite Hheader, E.
Qed.

End NodeGroupAccess.

(** ** Further properties: the lifecycle handlers *)

Lemma accept_each_Raise (u : User) (l : list Node) :
  forall (db db' : DB) (e : api_error),
  accept_each u l db = (Raise e, db') ->
  exists current, e = InvalidTransition current READY.
Proof.
  induction l as [|n rest IH]; intros db db' e; [done|].
  cbn [accept_each]. unfold Node_accept_enlistment.
  destruct (status n) eqn:Es;
    try (intros [= <- _]; by eexists).
  - destruct (accept_each u rest _) as [[rs|e'] db2] eqn:E; [done|].
    intros [= <- _]. by eapply IH.
  - destruct (accept_each u rest _) as [[rs|e'] db2] eqn:E; [done|].
    intros [= <- _]. by eapply IH.
Qed.

Lemma get_nodes_no_ids (has_perm : User -> NODE_PERMISSION -> Node -> bool)
    (db : DB) (u : User) (perm : NODE_PERMISSION) :
  get_nodes has_perm db u perm (Some []) = [].
Proof.
  unfold get_nodes. induction (nodes db) as [|n rows IH]; [done|].
  cbn [List.filter]. rewrite bool_decide_false by apply not_elem_of_nil.
  by rewrite andb_false_r.
Qed.

Section LifecycleProperties.

Variable has_perm : User -> NODE_PERMISSION -> Node -> bool.
Variable display_status : Node -> string.
Variable COMMISSIONING_TIMEOUT : Z.
Variable Token_objects_get : string -> option Token.
Variable b64decode : string -> option string.
Variable node_create_form : User -> QueryDict -> string + Node.

Local Abbreviation release := (NodeHandler_release has_perm display_status).
Local Abbreviation accept := (NodesHandler_accept has_perm).
Local Abbreviation acquire :=
  (NodesHandler_acquire has_perm Token_objects_get).
Local Abbreviation check_commissioning :=
  (AnonNodesHandler_check_commissioning COMMISSIONING_TIMEOUT).
Local Abbreviation run_op :=
  (run has_perm display_status COMMISSIONING_TIMEOUT Token_objects_get
       b64decode node_create_form).

(** X10.  [accept] raises [MAASAPIBadRequest] exactly when the table
    holds fewer distinct ids than the batch does.  The message then lists,
    each once, exactly the ids of the batch that name no node, and the
    store is unchanged. *)
Theorem accept_bad_request_iff (request : HttpRequest) (db : DB) :
  let batch := qd_getlist (POST request) "nodes" in
  ((exists msg db',
      accept request db = (Raise (MAASAPIBadRequest msg), db')) <->
   (length (set_of (map system_id (nodes db))) < length (set_of batch))%nat)
  /\
  ((length (set_of (map system_id (nodes db))) < length (set_of batch))%nat ->
   exists unknown,
     accept request db =
       (Raise (MAASAPIBadRequest
                 ("Unknown node(s): " +:+ join ", " unknown +:+ ".")), db) /\
     NoDup unknown /\
     forall sid, sid ∈ unknown <-> sid ∈ batch /\ get_node db sid = None).
Proof.
  intros batch. unfold NodesHandler_accept. fold batch.
  destruct (Nat.ltb (length (set_of (map system_id (nodes db))))
                    (length (set_of batch))) eqn:E.
  - apply Nat.ltb_lt in E. split; [split; [done|by eexists _, _]|].
    intros _.
    exists (list_difference (set_of batch) (set_of (map system_id (nodes db)))).
    split; [done|]. split; [apply NoDup_list_difference, NoDup_set_of|].
    intros sid. rewrite list_elem_of_difference, !elem_of_set_of.
    split; intros [Hin Hnot]; (split; [done|]).
    + destruct (get_node db sid) as [n|] eqn:En; [|done].
      exfalso. apply Hnot. apply get_node_Some in En as [Hn <-].
      apply list_elem_of_fmap. by exists n.
    + intros Hid. apply list_elem_of_fmap in Hid as (n & -> & Hn).
      destruct (get_node_elem_of db n Hn) as [m Hm]. congruence.
  - apply Nat.ltb_ge in E. split; [|intros; lia].
    split; [|intros; lia]. intros (msg & db' & H). exfalso.
    destruct (Nat.ltb _ _); [done|].
    destruct (accept_each _ _ db) as [[rs|e] db2] eqn:Eloop; [done|].
    injection H as -> _.
    by apply accept_each_Raise in Eloop as [current ?].
Qed.

(** X11.  An empty list of nodes is acceptable: [accept] then returns the
    empty list and leaves the store as it is, whoever asks. *)
Theorem accept_nothing (request : HttpRequest) (db : DB) :
  qd_getlist (POST request) "nodes" = [] ->
  accept request db = (Return [], db).
Proof.
  intros Hbatch. unfold NodesHandler_accept. rewrite Hbatch.
  change (set_of []) with (@nil string). cbn [length].
  rewrite (proj2 (Nat.ltb_ge _ 0)) by lia.
  by rewrite get_nodes_no_ids.
Qed.

(** X12.  A later sweep subsumes an earlier one: sweeping at [now] and
    then at a later time leaves the store the single later sweep would
    leave.  In particular a sweep repeated at the same time changes
    nothing more. *)
Theorem check_commissioning_twice (now now' : Z) (request request' : HttpRequest)
    (db : DB) :
  now <= now' ->
  snd (check_commissioning now' request'
         (snd (check_commissioning now request db)))
  = snd (check_commissioning now' request' db).
Proof.
  intros Hle. unfold AnonNodesHandler_check_commissioning, QuerySet_update.
  cbn [snd nodes saves power]. f_equal. rewrite map_map.
  apply map_ext. intros n. unfold commissioning_overdue, timedelta_minutes.
  destruct (decide (status n = COMMISSIONING)) as [Hs|Hs].
  - rewrite (bool_decide_true (status n = COMMISSIONING)) by done.
    cbn [andb].
    destruct (Z.leb (updated n) (now - COMMISSIONING_TIMEOUT * 60000000))
      eqn:E1.
    + apply Z.leb_le in E1. cbn [with_status status updated].
      rewrite (bool_decide_false (FAILED_TESTS = COMMISSIONING)) by done.
      cbn [andb]. by rewrite (proj2 (Z.leb_le _ _)) by lia.
    + rewrite (bool_decide_true (status n = COMMISSIONING)) by done. done.
  - rewrite (bool_decide_false (status n = COMMISSIONING)) by done.
    cbn [andb]. by rewrite (bool_decide_false (status n = COMMISSIONING)).
Qed.

(** X13.  Nothing is allocated without a known OAuth token.  When
    [acquire] returns, the request carried an [Authorization] header from
    which a key was extracted, and that key names a token of the table.
    When a candidate exists but the header is missing, holds no token or
    holds an unknown one, [acquire] raises [Unauthorized]; when the header
    does not decode, it raises the [UnicodeDecodeError] of the parser.
    Either way the store is unchanged. *)
Theorem acquire_needs_token (request : HttpRequest) (db : DB) :
  (forall node' db', acquire request db = (Return node', db') ->
     exists header key token,
       HTTP_AUTHORIZATION request = Some header /\
       extract_oauth_key_from_auth_header header = Return (Some key) /\
       Token_objects_get key = Some token) /\
  (forall n,
     get_available_node_for_acquisition has_perm db (user request)
       (extract_constraints (data request)) = Some n ->
     (HTTP_AUTHORIZATION request = None \/
      exists header,
        HTTP_AUTHORIZATION request = Some header /\
        (extract_oauth_key_from_auth_header header = Return None \/
         exists key,
           extract_oauth_key_from_auth_header header = Return (Some key) /\
           Token_objects_get key = None)) ->
     exists msg, acquire request db = (Raise (Unauthorized msg), db)) /\
  (forall n header,
     get_available_node_for_acquisition has_perm db (user request)
       (extract_constraints (data request)) = Some n ->
     HTTP_AUTHORIZATION request = Some header ->
     extract_oauth_key_from_auth_header header = Raise UnicodeDecodeError ->
     acquire request db = (Raise UnicodeDecodeError, db)).
Proof.
  unfold NodesHandler_acquire, get_oauth_token, extract_oauth_key.
  split; [|split].
  - intros node' db'.
    destruct (get_available_node_for_acquisition _ _ _ _); [|done].
    destruct (HTTP_AUTHORIZATION request) as [header|]; [|done].
    destruct (extract_oauth_key_from_auth_header header) as [[key|]|err]
      eqn:Ek; [|done|done].
    destruct (Token_objects_get key) as [token|] eqn:Et; [|done].
    intros _. by exists header, key, token.
  - intros n -> [->|(header & -> & [->|(key & -> & ->)])]; by eexists.
  - by intros n header -> -> ->.
Qed.

End LifecycleProperties.

(** *** What the operations never write *)

Lemma elem_of_replace_row_other (n' m : Node) (rows : list Node) :
  m ∈ rows -> system_id m <> system_id n' -> m ∈ replace_row n' rows.
Proof.
  intros Hm Hne. unfold replace_row. apply list_elem_of_fmap.
  exists m. by rewrite bool_decide_false.
Qed.

Lemma save_unique_ids (n' : Node) (db : DB) :
  unique_ids db -> unique_ids (save n' db).
Proof. unfold unique_ids. simpl. by rewrite replace_row_ids. Qed.

Section Projection.

(** A view of a row that does not look at the owner and looks at the
    status only to tell Retired from the rest. *)
Context {K : Type} (proj : Node -> K).
Hypothesis proj_owner : forall n o, proj (with_owner o n) = proj n.
Hypothesis proj_status :
  forall n s, status n <> RETIRED -> s <> RETIRED ->
              proj (with_status s n) = proj n.

Lemma save_proj (n n' : Node) (db : DB) :
  unique_ids db -> n ∈ nodes db -> system_id n' = system_id n ->
  proj n' = proj n ->
  map proj (nodes (save n' db)) = map proj (nodes db).
Proof.
  intros Hu Hn Hid Hproj. simpl. unfold replace_row. rewrite map_map.
  apply map_ext_in. intros m Hm. apply list_elem_of_In in Hm.
  case_bool_decide as E; [|done].
  rewrite Hproj. f_equal. apply (unique_row db); auto. congruence.
Qed.

Lemma accept_each_proj (u : User) (l : list Node) :
  forall db : DB,
  unique_ids db -> NoDup (map system_id l) ->
  (forall n, n ∈ l -> n ∈ nodes db) ->
  map proj (nodes (snd (accept_each u l db))) = map proj (nodes db).
Proof.
  induction l as [|n rest IH]; intros db Hu Hnd Hin; [done|].
  cbn [accept_each]. unfold Node_accept_enlistment.
  simpl in Hnd. apply NoDup_cons in Hnd as [Hfresh Hnd].
  assert (Hrest : forall m, m ∈ rest -> system_id m <> system_id n).
  { intros m Hm Heq. apply Hfresh. rewrite <- Heq.
    apply list_elem_of_fmap. by exists m. }
  destruct (status n) eqn:Es; try done.
  - set (db1 := save (with_status READY n) db).
    assert (H1 : map proj (nodes db1) = map proj (nodes db)).
    { apply (save_proj n); [done|apply Hin; by left|done|].
      apply proj_status; congruence. }
    assert (H2 : map proj (nodes (snd (accept_each u rest db1)))
                 = map proj (nodes db1)).
    { apply IH; [by apply save_unique_ids|done|].
      intros m Hm. apply elem_of_replace_row_other; [apply Hin; by right|].
      by apply Hrest. }
    destruct (accept_each u rest db1) as [[rs|e] db2]; simpl in *; congruence.
  - assert (H2 : map proj (nodes (snd (accept_each u rest db)))
                 = map proj (nodes db)).
    { apply IH; [done|done|]. intros m Hm. apply Hin. by right. }
    by destruct (accept_each u rest db) as [[rs|e] db2].
Qed.

End Projection.

Section Untouched.

Variable has_perm : User -> NODE_PERMISSION -> Node -> bool.
Variable display_status : Node -> string.
Variable COMMISSIONING_TIMEOUT : Z.
Variable Token_objects_get : string -> option Token.
Variable b64decode : string -> option string.
Variable node_create_form : User -> QueryDict -> string + Node.

Local Abbreviation run_op :=
  (run has_perm display_status COMMISSIONING_TIMEOUT Token_objects_get
       b64decode node_create_form).

Lemma run_proj {K : Type} (proj : Node -> K) (op : operation)
    (request : HttpRequest) (db : DB) :
  (forall n o, proj (with_owner o n) = proj n) ->
  (forall n s, status n <> RETIRED -> s <> RETIRED ->
               proj (with_status s n) = proj n) ->
  op <> op_enlist -> op <> op_enlist_anonymous ->
  unique_ids db ->
  map proj (nodes (run_op op request db)) = map proj (nodes db).
Proof.
  intros Hown Hst Hne1 Hne2 Hu. destruct op; cbn [run]; try done.
  - (* accept *)
    unfold NodesHandler_accept.
    destruct (Nat.ltb _ _); [done|]. destruct (Nat.ltb _ _); [done|].
    set (nodes_ := get_nodes _ _ _ _ _).
    assert (H : map proj (nodes (snd (accept_each (user request) nodes_ db)))
                = map proj (nodes db)).
    { apply accept_each_proj; auto.
      - by apply NoDup_map_filter.
      - intros n Hn. unfold nodes_, get_nodes in Hn.
        by apply elem_of_filter_bool in Hn as [? _]. }
    by destruct (accept_each _ _ db) as [[rs|e] db'].
  - (* acquire *)
    unfold NodesHandler_acquire, get_available_node_for_acquisition.
    destruct (List.find _ (nodes db)) as [n|] eqn:E; [|done].
    destruct (get_oauth_token _ request); [|done].
    apply find_some in E as [Hin Hav]. apply list_elem_of_In in Hin.
    unfold available in Hav. rewrite !andb_true_iff in Hav.
    destruct Hav as [[Hready _] _]. apply bool_decide_eq_true in Hready.
    cbn [Node_acquire snd]. apply (save_proj proj n); auto.
    rewrite Hown. apply Hst; congruence.
  - (* release *)
    unfold NodeHandler_release, get_node_or_404.
    destruct (get_node db sid) as [n|] eqn:E; [|done].
    destruct (has_perm _ _ _); [|done].
    destruct (bool_decide (status n = READY)); [done|].
    case_bool_decide as Hs; [|done].
    apply get_node_Some in E as [Hin _].
    cbn [Node_release snd]. apply (save_proj proj n); auto.
    rewrite Hown. apply Hst; [|done].
    apply elem_of_cons in Hs as [->|Hs]; [done|].
    apply elem_of_cons in Hs as [->|Hs]; [done|].
    by apply elem_of_nil in Hs.
  - (* the sweep *)
    unfold AnonNodesHandler_check_commissioning, QuerySet_update.
    cbn [snd nodes]. rewrite map_map. apply map_ext. intros n.
    unfold commissioning_overdue.
    destruct (bool_decide (status n = COMMISSIONING)) eqn:Es; [|done].
    apply bool_decide_eq_true in Es. destruct (Z.leb _ _); [|done].
    cbn [andb]. apply Hst; congruence.
  - (* start *)
    unfold NodeHandler_start, start_nodes.
    destruct (qd_get _ _) as [user_data|].
    + destruct (b64decode user_data); [|done].
      by destruct (get_nodes _ _ _ _ _).
    + by destruct (get_nodes _ _ _ _ _).
  - (* stop *)
    unfold NodeHandler_stop, stop_nodes. by destruct (get_nodes _ _ _ _ _).
Qed.

(** X14.  Apart from enlistment, no operation of the lifecycle adds or
    removes a node or rewrites what identifies and describes one: on a
    table with unique ids the rows keep their number, their order and
    their [system_id], hostname, netboot flag and MAC addresses, whether
    the operation returns or raises.  Status and owner are what the
    operations are there to write; the time stamp is left out, since what
    [Node.save()] does to it is up to the model class. *)
Theorem operations_write_status_and_owner_only (op : operation)
    (request : HttpRequest) (db : DB) :
  op <> op_enlist -> op <> op_enlist_anonymous -> unique_ids db ->
  map (fun n => (system_id n, hostname n, netboot n, macaddress_set n))
      (nodes (run_op op request db))
  = map (fun n => (system_id n, hostname n, netboot n, macaddress_set n))
        (nodes db).
Proof. intros Hne1 Hne2 Hu. by apply run_proj. Qed.

(** The answer of [is_registered], computed row by row. *)
Lemma is_registered_rows (request : HttpRequest) (db : DB) (mac : string) :
  qd_get (GET request) "mac_address" = Some mac ->
  fst (AnonNodesHandler_is_registered request db)
  = Return (existsb
              (fun view : list string * bool =>
                 existsb (fun m => bool_decide (m = mac)) (fst view)
                 && negb (snd view))
              (map (fun n => (macaddress_set n,
                              bool_decide (status n = RETIRED)))
                   (nodes db))).
Proof.
  intros Hmac. unfold AnonNodesHandler_is_registered, get_mandatory_param.
  rewrite Hmac. cbn [fst]. f_equal. unfold MACAddress_objects.
  induction (nodes db) as [|n rows IH]; [done|].
  cbn [flat_map map existsb fst snd]. rewrite !List.filter_app.
  rewrite <- IH. clear IH.
  set (rest := List.filter _ (List.filter _ (flat_map _ rows))).
  assert (Hhead :
    match List.filter
            (fun link : string * Node =>
               negb (bool_decide (status (snd link) = RETIRED)))
            (List.filter (fun link : string * Node =>
                            bool_decide (fst link = mac))
                         (map (fun m => (m, n)) (macaddress_set n)))
    with [] => false | _ :: _ => true end
    = existsb (fun m => bool_decide (m = mac)) (macaddress_set n)
      && negb (bool_decide (status n = RETIRED))).
  { induction (macaddress_set n) as [|m macs IHm]; [done|].
    cbn [map List.filter existsb fst snd].
    destruct (bool_decide (m = mac)); [|exact IHm].
    cbn [List.filter snd orb].
    destruct (bool_decide (status n = RETIRED)) eqn:Er; [|done].
    cbn [negb]. rewrite IHm. by rewrite !andb_false_r. }
  rewrite <- Hhead.
  by destruct (List.filter _ (List.filter _ (map _ (macaddress_set n)))).
Qed.

(** X15.  Apart from enlistment, no operation of the lifecycle changes
    what [is_registered] answers for any address: none of them touches an
    address, retires a node or brings a Retired node back. *)
Theorem operations_keep_registrations (op : operation)
    (request query : HttpRequest) (db : DB) :
  op <> op_enlist -> op <> op_enlist_anonymous -> unique_ids db ->
  fst (AnonNodesHandler_is_registered query (run_op op request db))
  = fst (AnonNodesHandler_is_registered query db).
Proof.
  intros Hne1 Hne2 Hu.
  destruct (qd_get (GET query) "mac_address") as [mac|] eqn:Hmac.
  - rewrite !(is_registered_rows query _ mac) by done.
    rewrite (run_proj (fun n => (macaddress_set n,
                                 bool_decide (status n = RETIRED)))); auto.
    intros n s Hn Hs. cbn [with_status macaddress_set status].
    by rewrite !bool_decide_false.
  - unfold AnonNodesHandler_is_registered, get_mandatory_param.
    by rewrite Hmac.
Qed.

End Untouched.

(** *** Rows written twice *)

Lemma replace_row_twice (n n' : Node) (rows : list Node) :
  system_id n' = system_id n ->
  replace_row n (replace_row n' rows) = replace_row n rows.
Proof.
  intros Hid. unfold replace_row. rewrite map_map. apply map_ext.
  intros m. rewrite Hid.
  destruct (decide (system_id m = system_id n)) as [E|E].
  - rewrite (bool_decide_true (system_id m = system_id n)) by done.
    by rewrite bool_decide_true by congruence.
  - by rewrite !(bool_decide_false (system_id m = system_id n)).
Qed.

Lemma replace_row_self (db : DB) (n : Node) :
  unique_ids db -> n ∈ nodes db -> replace_row n (nodes db) = nodes db.
Proof.
  intros Hu Hn. unfold replace_row. rewrite <- (map_id (nodes db)) at 2.
  apply map_ext_in. intros m Hm. apply list_elem_of_In in Hm.
  case_bool_decide as E; [|done]. symmetry. by apply (unique_row db).
Qed.

Lemma replace_row_snoc_fresh (n n' : Node) (rows : list Node) :
  system_id n ∉ map system_id rows -> system_id n' = system_id n ->
  replace_row n' (rows ++ [n])%list = (rows ++ [n'])%list.
Proof.
  intros Hfresh Hid. unfold replace_row at 1. rewrite map_app.
  fold (replace_row n' rows). rewrite replace_row_absent by (by rewrite Hid).
  simpl. by rewrite bool_decide_true.
Qed.

(** The rows [get_nodes] returns for a single id. *)
Lemma get_nodes_single (has_perm : User -> NODE_PERMISSION -> Node -> bool)
    (db : DB) (u : User) (perm : NODE_PERMISSION) (sid : string) :
  unique_ids db ->
  get_nodes has_perm db u perm (Some [sid]) =
  match get_node db sid with
  | Some node => if has_perm u perm node then [node] else []
  | None => []
  end.
Proof.
  unfold unique_ids, get_nodes, get_node.
  induction (nodes db) as [|m rows IH]; intros Hnd; [done|].
  simpl in Hnd. apply NoDup_cons in Hnd as [Hfresh Hnd].
  cbn [List.filter List.find].
  destruct (decide (system_id m = sid)) as [E|E].
  - subst sid. rewrite (bool_decide_true (system_id m = system_id m)) by done.
    rewrite (bool_decide_true (system_id m ∈ [system_id m]))
      by (by left).
    assert (List.filter
              (fun n => has_perm u perm n
                        && bool_decide (system_id n ∈ [system_id m])) rows
            = []) as ->.
    { clear IH Hnd. induction rows as [|r rows IHr]; [done|].
      apply not_elem_of_cons in Hfresh as [Hne Hfresh].
      cbn [List.filter].
      rewrite (bool_decide_false (system_id r ∈ [system_id m])).
      - rewrite andb_false_r. by apply IHr.
      - intros Hin. apply elem_of_cons in Hin as [?|Hin]; [done|].
        by apply elem_of_nil in Hin. }
    rewrite andb_true_r. by destruct (has_perm u perm m).
  - rewrite (bool_decide_false (system_id m = sid)) by done.
    rewrite (bool_decide_false (system_id m ∈ [sid])).
    + rewrite andb_false_r. by apply IH.
    + intros Hin. apply elem_of_cons in Hin as [?|Hin]; [done|].
      by apply elem_of_nil in Hin.
Qed.

(** A row appended under a new id is the row found for that id, and the
    other ids find what they found. *)
Lemma find_snoc_fresh (rows : list Node) (n : Node) :
  system_id n ∉ map system_id rows ->
  List.find (fun m => bool_decide (system_id m = system_id n))
            (rows ++ [n])%list
  = Some n.
Proof.
  induction rows as [|m rows IH]; intros Hfresh.
  - simpl. by rewrite bool_decide_true.
  - simpl in Hfresh. apply not_elem_of_cons in Hfresh as [Hne Hfresh].
    simpl. rewrite bool_decide_false by congruence. by apply IH.
Qed.

Lemma find_snoc_other (rows : list Node) (n : Node) (sid : string) :
  sid <> system_id n ->
  List.find (fun m => bool_decide (system_id m = sid)) (rows ++ [n])%list
  = List.find (fun m => bool_decide (system_id m = sid)) rows.
Proof.
  intros Hne. induction rows as [|m rows IH].
  - simpl. by rewrite bool_decide_false by congruence.
  - simpl. by rewrite IH.
Qed.

(** An address attached to a node that is not Retired is registered. *)
Lemma is_registered_attached (query : HttpRequest) (db : DB) (mac : string)
    (n : Node) :
  qd_get (GET query) "mac_address" = Some mac ->
  n ∈ nodes db -> mac ∈ macaddress_set n -> status n <> RETIRED ->
  fst (AnonNodesHandler_is_registered query db) = Return true.
Proof.
  intros Hquery Hn Hmac Hs.
  rewrite (is_registered_rows query db mac Hquery). f_equal.
  apply existsb_exists.
  exists (macaddress_set n, bool_decide (status n = RETIRED)). split.
  - apply in_map_iff. exists n. split; [done|]. by apply list_elem_of_In.
  - cbn [fst snd]. rewrite bool_decide_false by done.
    rewrite andb_true_r. apply existsb_exists. exists mac.
    split; [by apply list_elem_of_In|]. by rewrite bool_decide_true.
Qed.

Section Composition.

Variable has_perm : User -> NODE_PERMISSION -> Node -> bool.
Variable display_status : Node -> string.
Variable COMMISSIONING_TIMEOUT : Z.
Variable Token_objects_get : string -> option Token.
Variable b64decode : string -> option string.
Variable node_create_form : User -> QueryDict -> string + Node.

Local Abbreviation release := (NodeHandler_release has_perm display_status).
Local Abbreviation acquire :=
  (NodesHandler_acquire has_perm Token_objects_get).
Local Abbreviation check_commissioning :=
  (AnonNodesHandler_check_commissioning COMMISSIONING_TIMEOUT).

(** X16.  Enlistment.  When the form rejects the data, both [new]
    handlers raise [ValidationError] with the form errors and store
    nothing.  When it accepts them and the id of the node is new to the
    table, both handlers return a node with the attributes of the form
    and no owner: in Declared status from the anonymous handler and from
    a user who is no superuser, in Ready status from a superuser, whose
    node is accepted at once.  The returned node is the last row of the
    table and the row the store holds for its id, every other id finds
    the row it found before, and from then on [is_registered] answers
    true for each address of the node. *)
Theorem enlistment_outcomes (request query : HttpRequest) (db : DB) :
  let enlisted (expected : NODE_STATUS) (attributes : Node)
      (result : outcome Node * DB) :=
    exists node db',
      result = (Return node, db') /\
      status node = expected /\ owner node = None /\
      system_id node = system_id attributes /\
      hostname node = hostname attributes /\
      netboot node = netboot attributes /\
      macaddress_set node = macaddress_set attributes /\
      nodes db' = (nodes db ++ [node])%list /\
      get_node db' (system_id node) = Some node /\
      (forall sid, sid <> system_id node ->
         get_node db' sid = get_node db sid) /\
      (forall mac,
         mac ∈ macaddress_set attributes ->
         qd_get (GET query) "mac_address" = Some mac ->
         fst (AnonNodesHandler_is_registered query db') = Return true) in
  (forall errors,
     node_create_form (user request) (data request) = inl errors ->
     AnonNodesHandler_new node_create_form request db
       = (Raise (ValidationError errors), db) /\
     NodesHandler_new node_create_form request db
       = (Raise (ValidationError errors), db)) /\
  (forall attributes,
     node_create_form (user request) (data request) = inr attributes ->
     system_id attributes ∉ map system_id (nodes db) ->
     enlisted DECLARED attributes
              (AnonNodesHandler_new node_create_form request db) /\
     enlisted (if is_superuser (user request) then READY else DECLARED)
              attributes
              (NodesHandler_new node_create_form request db)).
Proof.
  intros enlisted.
  assert (Hstored : forall (expected : NODE_STATUS) (attributes node : Node)
            (db' : DB) (result : outcome Node * DB),
            result = (Return node, db') ->
            node = with_owner None (with_status expected attributes) ->
            expected <> RETIRED ->
            system_id attributes ∉ map system_id (nodes db) ->
            nodes db' = (nodes db ++ [node])%list ->
            enlisted expected attributes result).
  { intros expected attributes node db' result -> -> Hst Hfresh Hrows.
    eexists _, db'. split; [reflexivity|]. repeat (split; [done|]).
    split; [|split].
    - unfold get_node. rewrite Hrows. by apply find_snoc_fresh.
    - intros sid Hne. unfold get_node. rewrite Hrows.
      by apply find_snoc_other.
    - intros mac Hmac Hquery.
      apply (is_registered_attached query db' mac
               (with_owner None (with_status expected attributes)));
        [done| |done|done].
      rewrite Hrows. apply elem_of_app. right. by left. }
  unfold AnonNodesHandler_new, NodesHandler_new, create_node. split.
  - intros errors ->. done.
  - intros attributes Hform Hfresh. rewrite Hform. split.
    + by eapply Hstored.
    + destruct (is_superuser (user request)).
      * cbn [Node_accept_enlistment with_owner with_status status].
        eapply Hstored; [reflexivity|reflexivity|done|done|].
        simpl. by apply replace_row_snoc_fresh.
      * by eapply Hstored.
Qed.

(** X17.  Round trip.  On a table with unique ids that satisfies the
    owner invariant, a node acquired and then released by a user who may
    edit it is back as it was, the time stamp apart: [release] returns it
    Ready and without owner, that is the row the store then holds for its
    id, and the rows of the table agree one by one with the rows before
    the first call on id, hostname, status, owner, netboot flag and
    addresses. *)
Theorem acquire_then_release (request request' : HttpRequest)
    (db db1 : DB) (node : Node) :
  unique_ids db -> db_inv db ->
  acquire request db = (Return node, db1) ->
  has_perm (user request') EDIT node = true ->
  let view (n : Node) :=
    (system_id n, hostname n, status n, owner n, netboot n,
     macaddress_set n) in
  exists node0 db2,
    release request' (system_id node) db1 = (Return node0, db2) /\
    status node0 = READY /\ owner node0 = None /\
    system_id node0 = system_id node /\
    (exists n, n ∈ nodes db /\ view n = view node0) /\
    get_node db2 (system_id node) = Some node0 /\
    map view (nodes db2) = map view (nodes db).
Proof.
  intros Hu Hinv Hacq Hperm view.
  apply acquire_Return in Hacq as (n & Hin & Hav & Hnode & Hdb1 & Hget & _).
  unfold available in Hav. rewrite !andb_true_iff in Hav.
  destruct Hav as [[Hready _] _]. apply bool_decide_eq_true in Hready.
  assert (Hown : owner n = None).
  { eapply Forall_forall in Hinv; [|exact Hin].
    destruct (owner n) eqn:Eo; [|done]. exfalso.
    destruct Hinv as [Hinv _].
    destruct Hinv as [?|?]; congruence. }
  assert (Hback : with_owner None (with_status READY node) = n).
  { rewrite Hnode. destruct n. simpl in *. by subst. }
  assert (Hid : system_id node = system_id n) by (by rewrite Hnode).
  assert (Hrows : nodes (save n db1) = nodes db).
  { rewrite Hdb1. simpl. rewrite replace_row_twice by done.
    by apply replace_row_self. }
  exists n, (save n db1).
  split; [|split; [done|split; [done|split; [done|split; [|split]]]]].
  - unfold NodeHandler_release, get_node_or_404.
    rewrite Hid, Hget, Hperm.
    rewrite (bool_decide_false (status node = READY)) by (by rewrite Hnode).
    rewrite bool_decide_true by (rewrite Hnode; by left).
    unfold Node_release. by rewrite Hback.
  - by exists n.
  - rewrite Hid. by apply (get_node_save_same db1 (system_id n) node n).
  - by rewrite Hrows.
Qed.

(** X18.  [release] is idempotent from every status it accepts: after a
    call that returned, a second call by a user who may still edit the
    node returns the same node and leaves the store as the first call left
    it. *)
Theorem release_again (request request' : HttpRequest) (sid : string)
    (db db' : DB) (node' : Node) :
  release request sid db = (Return node', db') ->
  has_perm (user request') EDIT node' = true ->
  release request' sid db' = (Return node', db').
Proof.
  unfold NodeHandler_release, get_node_or_404.
  destruct (get_node db sid) as [n|] eqn:E; [|done].
  destruct (has_perm (user request) EDIT n); [|done].
  destruct (bool_decide (status n = READY)) eqn:Er.
  - intros [= <- <-] Hperm. by rewrite E, Hperm, Er.
  - destruct (bool_decide (status n ∈ [ALLOCATED; RESERVED])); [|done].
    unfold Node_release. intros [= <- <-] Hperm.
    pose proof (get_node_Some _ _ _ E) as [_ Hid].
    rewrite (get_node_save_same db sid n
               (with_owner None (with_status READY n)) E Hid).
    by rewrite Hperm.
Qed.

(** X19.  [start] and [stop] on one node.  Both raise [PermissionDenied]
    when the id names no node or names one the user may not edit: an
    unknown id is not reported as missing.  [start] decodes [user_data]
    before anything else, so data that does not decode raises with no
    request sent to the power collaborator.  Otherwise each returns the
    node and hands exactly one request for it to the power collaborator,
    [start] passing the decoded data on; the node table and the log of
    saves are as before. *)
Theorem start_stop_one_node (request : HttpRequest) (sid : string) (db : DB) :
  unique_ids db ->
  (forall user_data,
     qd_get (POST request) "user_data" = Some user_data ->
     b64decode user_data = None ->
     NodeHandler_start has_perm b64decode request sid db
       = (Raise TypeError, db)) /\
  (forall decoded,
     (qd_get (POST request) "user_data" = None /\ decoded = None) \/
     (exists user_data bytes,
        qd_get (POST request) "user_data" = Some user_data /\
        b64decode user_data = Some bytes /\ decoded = Some bytes) ->
     match get_node db sid with
     | Some node =>
         if has_perm (user request) EDIT node then
           NodeHandler_start has_perm b64decode request sid db
             = (Return node,
                mkDB (nodes db) (saves db)
                     (requestStart sid decoded :: power db)) /\
           NodeHandler_stop has_perm request sid db
             = (Return node,
                mkDB (nodes db) (saves db) (requestStop sid :: power db))
         else
           NodeHandler_start has_perm b64decode request sid db
             = (Raise (PermissionDenied
                         "You are not allowed to start up this node."), db) /\
           NodeHandler_stop has_perm request sid db
             = (Raise (PermissionDenied
                         "You are not allowed to shut down this node."), db)
     | None =>
         NodeHandler_start has_perm b64decode request sid db
           = (Raise (PermissionDenied
                       "You are not allowed to start up this node."), db) /\
         NodeHandler_stop has_perm request sid db
           = (Raise (PermissionDenied
                       "You are not allowed to shut down this node."), db)
     end).
Proof.
  intros Hu. split.
  - intros user_data Hud Hdec. unfold NodeHandler_start.
    by rewrite Hud, Hdec.
  - intros decoded Hdec.
    unfold NodeHandler_start, NodeHandler_stop, start_nodes, stop_nodes.
    rewrite (get_nodes_single has_perm db (user request) EDIT sid Hu).
    destruct db as [rows svs pwr]. cbn [nodes saves power].
    assert (Hstart :
      match qd_get (POST request) "user_data" with
      | Some user_data =>
          match b64decode user_data with
          | Some bytes => Return (Some bytes)
          | None => Raise TypeError
          end
      | None => Return None
      end = Return decoded).
    { destruct Hdec as [[-> ->]|(raw & bytes & -> & -> & ->)]; done. }
    rewrite Hstart.
    destruct (get_node _ sid) as [node|] eqn:E; [|done].
    apply get_node_Some in E as [_ <-].
    by destruct (has_perm (user request) EDIT node).
Qed.

(** X20.  The boot purpose along the lifecycle.  A node that [acquire]
    returns is told to install when it boots from the network and to boot
    locally otherwise; a node that [release] returns is told to power
    off; a node that the commissioning sweep fails goes from
    commissioning to power off. *)
Theorem boot_purpose_along_lifecycle (request : HttpRequest) (db : DB) :
  (forall node' db', acquire request db = (Return node', db') ->
     get_boot_purpose (Some node')
     = if netboot node' then "install" else "local") /\
  (forall sid node' db', release request sid db = (Return node', db') ->
     get_boot_purpose (Some node') = "poweroff") /\
  (forall now i n,
     nodes db !! i = Some n -> status n = COMMISSIONING ->
     updated n <= now - COMMISSIONING_TIMEOUT * 60000000 ->
     get_boot_purpose (Some n) = "commissioning" /\
     exists n', nodes (snd (check_commissioning now request db)) !! i
                = Some n' /\
                get_boot_purpose (Some n') = "poweroff").
Proof.
  split; [|split].
  - intros node' db' H.
    by apply acquire_Return in H as (n & _ & _ & -> & _).
  - intros sid node' db'. unfold NodeHandler_release.
    destruct (get_node_or_404 _ _ _ _ _) as [n|]; [|done].
    destruct (bool_decide (status n = READY)) eqn:Er.
    + apply bool_decide_eq_true in Er. intros [= <- _].
      unfold get_boot_purpose. by rewrite Er.
    + destruct (bool_decide (status n ∈ [ALLOCATED; RESERVED])); [|done].
      by intros [= <- _].
  - intros now i n Hi Hs Hup. split.
    + unfold get_boot_purpose. by rewrite Hs.
    + exists (with_status FAILED_TESTS n). split; [|done].
      unfold AnonNodesHandler_check_commissioning, QuerySet_update.
      cbn [snd nodes]. change (map ?f ?l) with (f <$> l).
      rewrite list_lookup_fmap, Hi. cbn [fmap option_fmap option_map].
      unfold commissioning_overdue, timedelta_minutes.
      rewrite bool_decide_true by done.
      by rewrite (proj2 (Z.leb_le _ _)) by done.
Qed.

End Composition.

(** ** Further properties: reading, listing and deleting nodes *)

Section ReadListDelete.

Variable has_perm : User -> NODE_PERMISSION -> Node -> bool.

(** X21.  [list] never changes the store and returns visible nodes only.
    A node is in the result exactly when it is in the table, the user may
    view it, its id is among the [id] parameters when there are any, and
    one of its addresses is among the [mac_address] parameters when there
    are any.  With neither parameter the result is the visible nodes, in
    table order: an absent filter does not mean an empty result. *)
Theorem list_visible_nodes (request : HttpRequest) (db : DB) :
  exists result,
    NodesHandler_list has_perm request db = (Return result, db) /\
    (forall n, n ∈ result <->
       n ∈ nodes db /\ has_perm (user request) VIEW n = true /\
       (qd_getlist (GET request) "id" = [] \/
        system_id n ∈ qd_getlist (GET request) "id") /\
       (qd_getlist (GET request) "mac_address" = [] \/
        exists m, m ∈ macaddress_set n /\
                  m ∈ qd_getlist (GET request) "mac_address")) /\
    (qd_getlist (GET request) "id" = [] ->
     qd_getlist (GET request) "mac_address" = [] ->
     result = List.filter (has_perm (user request) VIEW) (nodes db)).
Proof.
  unfold NodesHandler_list, get_optional_list. eexists. split; [done|].
  set (ids := qd_getlist (GET request) "id").
  set (macs := qd_getlist (GET request) "mac_address").
  assert (Hnodes : forall n,
    n ∈ get_nodes has_perm db (user request) VIEW
          match ids with [] => None | i :: l => Some (i :: l) end <->
    n ∈ nodes db /\ has_perm (user request) VIEW n = true /\
    (ids = [] \/ system_id n ∈ ids)).
  { intros n. unfold get_nodes. rewrite elem_of_filter_bool, andb_true_iff.
    destruct ids as [|i ids'] eqn:Ei.
    - split; [intros (? & ? & _); auto|intros (? & ? & _); auto].
    - rewrite bool_decide_eq_true.
      split; [intros (? & ? & ?); auto|].
      by intros (? & ? & [?|?]). }
  split.
  - intros n. destruct macs as [|m0 macs'] eqn:Em; lazy beta iota zeta.
    + rewrite Hnodes. split; [intros (? & ? & ?); auto|].
      by intros (? & ? & ? & _).
    + rewrite list_elem_of_In, in_flat_map. split.
      * intros (x & Hx & Hin). apply in_map_iff in Hin as (m & -> & Hm).
        apply list_elem_of_In, Hnodes in Hx as (? & ? & ?).
        apply list_elem_of_In, elem_of_filter_bool in Hm as [Hm Hmac].
        apply bool_decide_eq_true in Hmac.
        repeat split; auto. right. by exists m.
      * intros (Hn & Hp & Hid & [?|(m & Hm & Hmac)]); [done|].
        exists n. split; [by apply list_elem_of_In, Hnodes|].
        apply in_map_iff. exists m. split; [done|].
        apply list_elem_of_In, elem_of_filter_bool.
        by rewrite bool_decide_eq_true.
  - intros -> ->. lazy beta iota zeta. unfold get_nodes. apply filter_ext.
    intros n. by rewrite andb_true_r.
Qed.

(** X22.  [delete] of a node the user has admin capability on removes
    the row with that id and no other: the id then names no node, so
    [read] raises [NotFound] for every user, and every other id names the
    row it named before.  When the lookup raises, [delete] raises the same
    and the store is unchanged. *)
Theorem delete_removes_the_node (request : HttpRequest) (sid : string)
    (db : DB) :
  (forall node,
     get_node_or_404 has_perm db sid (user request) ADMIN = Return node ->
     exists db',
       NodeHandler_delete has_perm request sid db = (Return DELETED, db') /\
       get_node db' sid = None /\
       (forall request', NodeHandler_read has_perm request' sid db'
                         = (Raise NotFound, db')) /\
       (forall other, other <> sid -> get_node db' other = get_node db other)
       /\ saves db' = saves db /\ power db' = power db) /\
  (forall e,
     get_node_or_404 has_perm db sid (user request) ADMIN = Raise e ->
     NodeHandler_delete has_perm request sid db = (Raise e, db)).
Proof.
  unfold NodeHandler_delete. split.
  - intros node Hget. rewrite Hget.
    apply get_node_or_404_Return in Hget as [Hget _].
    apply get_node_Some in Hget as [_ Hid].
    assert (Hgone : get_node (Node_delete node db) sid = None).
    { unfold get_node, Node_delete. cbn [nodes]. rewrite Hid.
      induction (nodes db) as [|m rows IH]; [done|]. cbn [List.filter].
      destruct (decide (system_id m = sid)) as [E|E].
      - by rewrite (bool_decide_true (system_id m = sid)) by done.
      - rewrite (bool_decide_false (system_id m = sid)) by done.
        cbn [negb List.find].
        by rewrite (bool_decide_false (system_id m = sid)) by done. }
    eexists. split; [done|]. split; [done|]. split; [|split; [|done]].
    + intros request'. unfold NodeHandler_read, get_node_or_404.
      by rewrite Hgone.
    + intros other Hne. unfold get_node, Node_delete. cbn [nodes].
      rewrite Hid. induction (nodes db) as [|m rows IH]; [done|].
      cbn [List.filter List.find].
      destruct (decide (system_id m = sid)) as [E|E].
      * rewrite (bool_decide_true (system_id m = sid)) by done.
        cbn [negb]. by rewrite (bool_decide_false (system_id m = other))
          by congruence.
      * rewrite (bool_decide_false (system_id m = sid)) by done.
        cbn [negb List.find]. by rewrite IH.
  - by intros e ->.
Qed.

End ReadListDelete.

(** ** The further properties on the sample fleet *)

(** X11 on the sample fleet: alice, who is no admin, accepts nothing. *)
Lemma accept_nothing_witness :
  Sample.accept (Sample.request_of Sample.alice ∅ ∅ None) Sample.fleet
  = (Return [], Sample.fleet).
Proof.
  exact (accept_nothing Sample.has_perm
           (Sample.request_of Sample.alice ∅ ∅ None) Sample.fleet eq_refl).
Defined.

(** X12 on the sample fleet: a sweep after thirty minutes, then one after
    forty. *)
Lemma check_commissioning_twice_witness :
  let request := Sample.request_of Sample.alice ∅ ∅ None in
  snd (Sample.check_commissioning 2400000000 request
         (snd (Sample.check_commissioning 1800000000 request Sample.fleet)))
  = snd (Sample.check_commissioning 2400000000 request Sample.fleet).
Proof.
  intros request.
  apply (check_commissioning_twice Sample.COMMISSIONING_TIMEOUT
           1800000000 2400000000 request request Sample.fleet).
  lia.
Defined.

(** X14 on the sample fleet: alice releases her node. *)
Lemma operations_write_status_and_owner_only_witness :
  let request := Sample.request_of Sample.alice ∅ ∅ None in
  let db' :=
    run Sample.has_perm Sample.display_status Sample.COMMISSIONING_TIMEOUT
        Sample.Token_objects_get Sample.b64decode Sample.node_create_form
        (op_release "node-3") request Sample.fleet in
  nodes db' <> nodes Sample.fleet /\
  map (fun n => (system_id n, hostname n, netboot n, macaddress_set n))
      (nodes db')
  = map (fun n => (system_id n, hostname n, netboot n, macaddress_set n))
        (nodes Sample.fleet).
Proof.
  intros request db'. split; [vm_compute; discriminate|].
  apply (operations_write_status_and_owner_only
           Sample.has_perm Sample.display_status Sample.COMMISSIONING_TIMEOUT
           Sample.Token_objects_get Sample.b64decode Sample.node_create_form
           (op_release "node-3") request Sample.fleet).
  - discriminate.
  - discriminate.
  - apply (bool_decide_unpack _). vm_compute. exact I.
Defined.

(** X15 on the sample fleet: the sweep fails a node; the address of the
    Ready node is registered before and after. *)
Lemma operations_keep_registrations_witness :
  let request := Sample.request_of Sample.alice ∅ ∅ None in
  let query :=
    Sample.request_of Sample.alice
      {[ "mac_address" := ["aa:bb:cc:dd:ee:02"] ]} ∅ None in
  let db' :=
    run Sample.has_perm Sample.display_status Sample.COMMISSIONING_TIMEOUT
        Sample.Token_objects_get Sample.b64decode Sample.node_create_form
        (op_check_commissioning 2400000000) request Sample.fleet in
  nodes db' <> nodes Sample.fleet /\
  fst (AnonNodesHandler_is_registered query Sample.fleet) = Return true /\
  fst (AnonNodesHandler_is_registered query db')
  = fst (AnonNodesHandler_is_registered query Sample.fleet).
Proof.
  intros request query db'. split; [|split].
  - vm_compute. discriminate.
  - vm_compute. reflexivity.
  - apply (operations_keep_registrations
             Sample.has_perm Sample.display_status Sample.COMMISSIONING_TIMEOUT
             Sample.Token_objects_get Sample.b64decode Sample.node_create_form
             (op_check_commissioning 2400000000) request query Sample.fleet).
    + discriminate.
    + discriminate.
    + apply (bool_decide_unpack _). vm_compute. exact I.
Defined.

(** X17 on the sample fleet: alice acquires the Ready node and releases
    it. *)
Lemma acquire_then_release_witness :
  let request :=
    Sample.request_of Sample.alice ∅ ∅ (Some Sample.alice_header) in
  let node := with_owner (Some Sample.alice)
                         (with_status ALLOCATED Sample.ready2) in
  let db1 := snd (Sample.acquire request Sample.fleet) in
  Sample.acquire request Sample.fleet = (Return node, db1) /\
  nodes db1 <> nodes Sample.fleet /\
  exists node0 db2,
    Sample.release request (system_id node) db1 = (Return node0, db2) /\
    status node0 = READY /\ owner node0 = None /\
    system_id node0 = system_id node /\
    (exists n, n ∈ nodes Sample.fleet /\
       (system_id n, hostname n, status n, owner n, netboot n,
        macaddress_set n)
       = (system_id node0, hostname node0, status node0, owner node0,
          netboot node0, macaddress_set node0)) /\
    get_node db2 (system_id node) = Some node0 /\
    map (fun n => (system_id n, hostname n, status n, owner n, netboot n,
                   macaddress_set n)) (nodes db2)
    = map (fun n => (system_id n, hostname n, status n, owner n, netboot n,
                     macaddress_set n)) (nodes Sample.fleet).
Proof.
  intros request node db1.
  assert (Hacq : Sample.acquire request Sample.fleet = (Return node, db1))
    by (vm_compute; reflexivity).
  split; [exact Hacq|]. split; [vm_compute; discriminate|].
  apply (acquire_then_release Sample.has_perm Sample.display_status
           Sample.Token_objects_get request request Sample.fleet db1 node).
  - apply (bool_decide_unpack _). vm_compute. exact I.
  - apply (bool_decide_unpack _). vm_compute. exact I.
  - exact Hacq.
  - reflexivity.
Defined.

(** X18 on the sample fleet: the admin releases alice's node twice. *)
Lemma release_again_witness :
  let request := Sample.request_of Sample.root ∅ ∅ None in
  let node' := with_owner None (with_status READY Sample.allocated3) in
  let db' := snd (Sample.release request "node-3" Sample.fleet) in
  Sample.release request "node-3" Sample.fleet = (Return node', db') /\
  Sample.release request "node-3" db' = (Return node', db').
Proof.
  intros request node' db'.
  assert (H : Sample.release request "node-3" Sample.fleet
              = (Return node', db')) by (vm_compute; reflexivity).
  split; [exact H|].
  exact (release_again Sample.has_perm Sample.display_status request request
           "node-3" Sample.fleet db' node' H eq_refl).
Defined.

(** X19 on the sample fleet: alice stops her node, and cannot stop a node
    that does not exist. *)
Lemma start_stop_one_node_witness :
  let request := Sample.request_of Sample.alice ∅ ∅ None in
  NodeHandler_stop Sample.has_perm request "node-3" Sample.fleet
    = (Return Sample.allocated3,
       mkDB (nodes Sample.fleet) (saves Sample.fleet)
            (requestStop "node-3" :: power Sample.fleet)) /\
  NodeHandler_stop Sample.has_perm request "ghost" Sample.fleet
    = (Raise (PermissionDenied
                "You are not allowed to shut down this node."),
       Sample.fleet).
Proof.
  intros request.
  assert (Hu : unique_ids Sample.fleet).
  { apply (bool_decide_unpack _). vm_compute. exact I. }
  split.
  - exact (proj2 (proj2 (start_stop_one_node Sample.has_perm Sample.b64decode
                           request "node-3" Sample.fleet Hu)
                    None (or_introl (conj eq_refl eq_refl)))).
  - exact (proj2 (proj2 (start_stop_one_node Sample.has_perm Sample.b64decode
                           request "ghost" Sample.fleet Hu)
                    None (or_introl (conj eq_refl eq_refl)))).
Defined.

(** X16 on the sample fleet: the superuser enlists a node named [zeta],
    which is stored Ready under its new id. *)
Lemma enlistment_outcomes_witness :
  let request :=
    Sample.request_of Sample.root ∅ {[ "hostname" := ["zeta"] ]} None in
  exists node db',
    NodesHandler_new Sample.node_create_form request Sample.fleet
      = (Return node, db') /\
    status node = READY /\ owner node = None /\
    system_id node = "node-zeta" /\
    get_node db' "node-zeta" = Some node /\
    get_node db' "node-1" = Some Sample.declared1.
Proof.
  intros request.
  destruct (proj2 (proj2 (enlistment_outcomes Sample.node_create_form
                            request request Sample.fleet)
                     (mkNode "node-zeta" "zeta" DECLARED None true 0 [])
                     eq_refl
                     ltac:(apply (bool_decide_unpack _); vm_compute;
                           exact I)))
    as (node & db' & Hrun & Hs & Ho & Hid & _ & _ & _ & _ & Hget & Hother & _).
  exists node, db'. split; [exact Hrun|]. split; [exact Hs|].
  split; [exact Ho|]. split; [exact Hid|]. split.
  - rewrite <- Hid at 1. exact Hget.
  - rewrite (Hother "node-1") by (rewrite Hid; discriminate). reflexivity.
Defined.
